(* ===== verification/_CoqProject ===== *)
-Q . S2P
Prelude.v
JsSort.v
NextConfig.v
Content.v
ProjectCard.v
Projects.v
ProjectsParallel.v
Achievements.v
Skills.v
Witnesses.v
