(* ===== verification/Prelude.v ===== *)
(** * A verification development of the harry-stage portfolio site

    ** The program
    A Next.js site whose logic runs at build time in three pages' data
    functions, plus one card component:
    - [src/pages/projects/index.tsx]: [getStaticProps] walks the projects of
      the content layer in order and, for each, awaits the preview-image
      service when [isAbsoluteURL(image.url)], keeps [image.url] otherwise,
      and gives [null] without an image.  The page sorts its props array in
      place by [(b.level || 0) - (a.level || 0)] and renders a
      [ProjectCard] per project.
    - [src/components/Projects/ProjectCard/ProjectCard.tsx]: renders one
      project; it reads [image.url] without a guard and ignores every
      attribute outside [ProjectProps] (among them [placeholderImage]).
    - [src/pages/achievements.tsx]: [getStaticProps] normalises each
      achievement ([?? null]) and sorts with
      [(a, b) => b.date.localeCompare(a.date)].
    - [src/pages/skills/[slug].tsx]: [getStaticPaths] lists the CMS's skill
      slugs with [fallback: false]; [getStaticProps] queries one skill per
      slug; the page logs it and renders [skill.iconName], [name], ...
    - [src/next.config.js]: the one image domain ([res.cloudinary.com]).
    The components share no state; they interact through data: the content
    layer feeds two pages, the projects page feeds the card, the GraphQL CMS
    feeds both functions of the skills route, and Next.js chains
    [getStaticPaths], [getStaticProps] and the component.

    ** The library (files in _CoqProject order)
    - [Prelude] (this file): the build monad [Build] (state passing over
      the log of external calls, errors [build_error]: [TypeError],
      [ServiceUnreachable], [NotFound]), [await] for a service answer given
      by an oracle, the [behaves m r cs] judgement ("from any log, [m] ends
      in [r] after appending exactly the calls [cs]"), the for-of loop
      [for_of_push] with its success/failure lemmas and its exact run over
      programs that never read the log ([log_free], [for_of_push_run]),
      [Promise.all] over such tasks ([promise_all], [all_settled]) and the
      requests a sequential loop issues up to its first failure
      ([calls_until_failure]), JS value helpers ([or_zero] for [x || 0],
      [nullable] values distinguishing [undefined] from [null], [field]
      for an absent document field, [nullish] for [x ?? null], [truthy],
      [to_js_string], and Next.js's [json_defined] props check),
      lexicographic string-order lemmas, hint db [harry] and the tactic
      [log_free_tac].  These model the JavaScript runtime, not code of the
      repository.
    - [JsSort]: [Array.prototype.sort] as the stable insertion sort
      [JsArray.sort]; the ES2019 consistent comparator as the class
      [JsArray.Consistent]; the engine contract as the class
      [JsArray.StableSortContract], which [JsArray.sort] implements and
      which determines the result ([contract_agrees]; for the projects page
      [ProjectsPage_engine_independent]), so the model stands for V8's
      TimSort or any conforming engine; [JsArray.sortE], the same
      sort with a comparator that may throw.
    - [NextConfig]: [next_config], the image domains; data only.
    - [Content]: the content-layer document types (generated code, not in
      src/): [Project], [Achievement], [CloudinaryImage].
    - [ProjectCard]: the interface [Helpers] of [@/utils/helpers] (not in
      src/: [cleanLink], [getGitHubOwnerAndRepoFromLink], [isAbsoluteURL]);
      every theorem holds for every implementation of it.  [ProjectCard.render].
    - [Projects]: [previewUrl], the loop body [withPlaceholder],
      [getStaticProps] (the preview service is a Section variable: its
      answer per URL, [None] when it rejects), the abstract specification
      [resolved]/[preview_calls], [level_cmp], [card_attrs], [render_cards],
      [ProjectsPage] (which returns the mutated props, since the in-place
      sort aliases the props array, and the [ProjectsView]: SEO head,
      heading, cards, GitHub link).
    - [ProjectsParallel]: the [Promise.all] variant of the projects build
      that spec §9 allows, [getStaticProps_parallel], built from the same
      [withPlaceholder]; a reference to compare the code with, not code.
    - [Achievements]: [clean], [localeCompare] (code-unit lexicographic, as
      the spec states; equal to locale collation on ISO dates of one
      format), [date_cmp] (throws when the receiver's date is null, and
      compares with ["null"] when the argument's is), [getStaticProps],
      [AchievementsPage] with its [AchievementsView].
    - [Skills]: [getStaticPaths], [getStaticProps], [SkillPage]; Next.js's
      static generation [build_route] (paths, then every listed path
      through [render_path], into a [gmap] from slug to page; a failing
      path does not stop the others, and fails the build), the [Route] it
      produces (pages and the [fallback] flag of [getStaticPaths]), and
      request handling [serve], which for a slug without a page answers 404
      when [fallback] is false and renders on demand when it is true.  The CMS is an oracle ([None]: unreachable); the two
      queries may see different snapshots, which models a CMS edit during
      the build.
    - [Witnesses]: small concrete data and every hypothesis-carrying claim
      applied to it.

    ** What is proved
    - Projects: [getStaticProps] refines its specification (result, and the
      exact sequence of service requests: one per absolute image URL, in
      order, no deduplication); a rejection aborts the build and later
      projects are not visited; the page orders by level descending
      (missing = 0), is stable for equal levels, and
      does not depend on the JS engine's sort; the page throws
      [TypeError] as soon as one project has no image, and renders all
      cards keyed by their [key] attribute ([_id]) otherwise, with pairwise distinct keys when the
      [_id]s are.  Whatever the service answers the build returns, after a
      prefix of the specified requests, at most one per project; no
      project is skipped: its request is made once every earlier one was
      answered.  Composed with the page, a successful build renders one
      card per content project, with its image, name and detail link.
    - Projects, spec §9: the [Promise.all] variant is the same program as
      the code's loop (same result, same requests in the same order) when
      the service answers everything.
    - ProjectCard: the card never depends on [placeholderImage].
    - Achievements: with all dates present the build succeeds without
      external calls; any successful build is newest-first, stable on equal
      dates, with distinct card keys when the [_id]s are,
      and its props always pass Next.js's JSON check (no [undefined]);
      two or more undated achievements make it throw.
    - Skills: with a consistent reachable CMS the route's table maps each
      CMS slug to its skill's page and nothing else, with [fallback: false],
      so unknown slugs get 404; a skill removed between the two queries
      fails the build; an unreachable CMS fails it at the paths query;
      whatever the CMS answers, the build returns after at most one query
      for the paths and one per listed path, and no listed path is
      skipped, even after another page failed.
    - Sort: permutation, sortedness, stability, uniqueness of the stable
      sorted permutation, idempotence, and the throwing variant.

    ** Bounds and fuel
    Every definition is structurally recursive: no fuel is needed and every
    function is total.  Levels are integers ([Z]); JS numbers' NaN and
    precision above 2^53 are not modelled, since [|| 0] maps NaN to 0 and
    levels are small authored integers.

    ** Not modelled
    Styling, icons and the link components' internals (pure
    presentation; the text, targets and SEO strings the pages pass them
    are modelled); the [console.log] of the skill page is returned as
    [SkillPage]'s log but not otherwise observed; the content
    layer and GraphQL client libraries (only their answers are modelled, as
    data and oracles); the bodies of [@/utils/helpers] and
    [@/utils/getPreviewImageURL], which are not in the repository (an
    interface and an oracle instead); [next/image] loading and its
    development-only domain check.  Which undated achievements a sort
    with some dates missing reaches as the comparator's receiver depends
    on the engine's comparison order, so that case is recorded as a
    finding, not a theorem.
*)

From Stdlib Require Import List String ZArith Lia Bool.
Import ListNotations.

(** ** JavaScript value helpers *)

(** [x || 0] on an optional number field: [undefined] and [0] both give
    [0] (NaN is not modelled: levels are integers). *)
Definition or_zero (v : option Z) : Z :=
  match v with
  | Some n => n
  | None => 0%Z
  end.

(** JS truthiness of a string field: [""] (and a missing field, which the
    content layer gives as [""]) is falsy. *)
Definition truthy (s : string) : bool := negb (String.eqb s "").

(** A JavaScript value that may be [undefined] or [null]. *)
Inductive nullable (A : Type) : Type :=
| Undefined
| Null
| Val (a : A).
Arguments Undefined {A}.
Arguments Null {A}.
Arguments Val {A} a.

(** An optional field of a content-layer document: an absent field reads
    as [undefined]. *)
Definition field {A} (x : option A) : nullable A :=
  match x with
  | Some v => Val v
  | None => Undefined
  end.

(** [x ?? null]: [undefined] (and [null]) become [null]. *)
Definition nullish {A} (x : nullable A) : nullable A :=
  match x with
  | Val v => Val v
  | _ => Null
  end.

(** [String(x)], as [localeCompare] converts its argument. *)
Definition to_js_string (x : nullable string) : string :=
  match x with
  | Val s => s
  | Null => "null"
  | Undefined => "undefined"
  end.

(** Next.js serialises the props of [getStaticProps] as JSON and refuses
    an [undefined] value ("[undefined] cannot be serialized as JSON.
    Please use [null] or omit this value"). *)
Definition json_defined {A} (x : nullable A) : bool :=
  match x with
  | Undefined => false
  | _ => true
  end.

(** ** The build monad

    A page's data function runs once at build time.  It may await external
    services (the preview-image service, the GraphQL CMS) and may fail; a
    failure aborts the page.  We model it as state passing over the log of
    external calls made so far, with an error sum. *)

Inductive build_error : Type :=
| TypeError (what : string)             (* property read on null/undefined *)
| ServiceUnreachable (service : string) (* an awaited request rejected *)
| NotFound (path : string)              (* a route that was not generated *)
| SerializableError (path : string).    (* props Next.js cannot serialise *)

Inductive ext_call : Type :=
| PreviewImageCall (url : string)
| CmsQuery (operation : string) (slug : option string).

Definition Build (A : Type) : Type :=
  list ext_call -> (build_error + A) * list ext_call.

Definition ret {A} (a : A) : Build A := fun log => (inr a, log).

Definition throw {A} (e : build_error) : Build A := fun log => (inl e, log).

Definition bind {A B} (m : Build A) (k : A -> Build B) : Build B :=
  fun log =>
    match m log with
    | (inr a, log') => k a log'
    | (inl e, log') => (inl e, log')
    end.

(** [try { m } catch (e) { h(e) }]. *)
Definition catch {A} (m : Build A) (h : build_error -> Build A) : Build A :=
  fun log =>
    match m log with
    | (inr a, log') => (inr a, log')
    | (inl e, log') => h e log'
    end.

(** The outcome of [m] as a value: what a runner that goes on after a
    failure records. *)
Definition attempt {A} (m : Build A) : Build (build_error + A) :=
  catch (bind m (fun a => ret (inr a))) (fun e => ret (inl e)).

(** [await svc(arg)]: the request is logged, then the service's answer
    (an oracle, [None] when it rejects) is returned or raised. *)
Definition await {A} (c : ext_call) (answer : option A) (service : string)
  : Build A :=
  fun log =>
    match answer with
    | Some a => (inr a, log ++ [c])
    | None => (inl (ServiceUnreachable service), log ++ [c])
    end.

Declare Scope build_scope.
Delimit Scope build_scope with build.
Notation "'do' x <- m ; k" := (bind m (fun x => k))
  (at level 60, x name, m at next level, right associativity) : build_scope.
Open Scope build_scope.

(** A program [m] "behaves as" [(r, cs)] when, from any log, it ends with
    result [r] having appended exactly the calls [cs]: programs of this
    development never inspect the log. *)
Definition behaves {A} (m : Build A) (r : build_error + A) (cs : list ext_call)
  : Prop :=
  forall log, m log = (r, log ++ cs).

(** The JS loop
    [for (const x of xs) { const y = await f(x); acc.push(y) }]. *)
Fixpoint for_of_push {A B} (f : A -> Build B) (acc : list B) (xs : list A)
  : Build (list B) :=
  match xs with
  | [] => ret acc
  | x :: rest => do y <- f x ; for_of_push f (acc ++ [y]) rest
  end.

(** [Promise.all(tasks)] over tasks that each await at most once: every
    task is started, in array order, and runs up to its await, so all
    requests are issued before any result is used; the join succeeds with
    the list of results when every task succeeds.  On a rejection the
    join here fails with the error of the first failing task in array
    order, whereas [Promise.all] rejects with the first rejection to
    settle, which depends on timing; no theorem of the development
    compares the two on a rejection. *)
Fixpoint all_settled {B} (rs : list (build_error + B)) : build_error + list B :=
  match rs with
  | [] => inr []
  | inl e :: _ => inl e
  | inr b :: rest =>
      match all_settled rest with
      | inl e => inl e
      | inr bs => inr (b :: bs)
      end
  end.

Definition promise_all {B} (tasks : list (Build B)) : Build (list B) :=
  fun log =>
    let runs := map (fun t => t []) tasks in
    (all_settled (map fst runs), log ++ flat_map snd runs).

(** The requests of a sequence of runs up to, and including, the first
    that fails: what a sequential loop over them issues. *)
Fixpoint calls_until_failure {B} (rs : list ((build_error + B) * list ext_call))
  : list ext_call :=
  match rs with
  | [] => []
  | (inl _, cs) :: _ => cs
  | (inr _, cs) :: rest => cs ++ calls_until_failure rest
  end.

(** A program that never inspects the log: its behaviour is its run from
    the empty log. *)
Definition log_free {A} (m : Build A) : Prop := behaves m (fst (m [])) (snd (m [])).

(** ** Automation *)

Create HintDb harry discriminated.

Lemma behaves_ret {A} (a : A) : behaves (ret a) (inr a) [].
Proof. intros log. unfold ret. now rewrite app_nil_r. Qed.

Lemma behaves_throw {A} e : behaves (@throw A e) (inl e) [].
Proof. intros log. unfold throw. now rewrite app_nil_r. Qed.

Lemma behaves_await_ok {A} c (a : A) s : behaves (await c (Some a) s) (inr a) [c].
Proof. intros log. reflexivity. Qed.

Lemma behaves_await_fail {A} c s :
  behaves (@await A c None s) (inl (ServiceUnreachable s)) [c].
Proof. intros log. reflexivity. Qed.

Lemma behaves_bind_ok {A B} (m : Build A) (k : A -> Build B) a cs r cs' :
  behaves m (inr a) cs -> behaves (k a) r cs' ->
  behaves (bind m k) r (cs ++ cs').
Proof.
  intros Hm Hk log. unfold bind. rewrite Hm, Hk. now rewrite app_assoc.
Qed.

Lemma behaves_bind_fail {A B} (m : Build A) (k : A -> Build B) e cs :
  behaves m (inl e) cs -> behaves (bind m k) (inl e) cs.
Proof. intros Hm log. unfold bind. now rewrite Hm. Qed.

Lemma behaves_attempt {A} (m : Build A) r cs :
  behaves m r cs -> behaves (attempt m) (inr r) cs.
Proof.
  intros Hm log. unfold attempt, catch, bind, ret. rewrite Hm. now destruct r.
Qed.

#[export] Hint Resolve behaves_ret behaves_throw behaves_await_ok
  behaves_await_fail behaves_bind_fail : harry.

(** The behaviour of a program is determined by its run from the empty log. *)
Lemma behaves_unique {A} (m : Build A) r cs r' cs' :
  behaves m r cs -> behaves m r' cs' -> r = r' /\ cs = cs'.
Proof.
  intros H1 H2. specialize (H1 []). specialize (H2 []).
  rewrite H1 in H2. now injection H2.
Qed.

Lemma behaves_ext {A} (m : Build A) r r' cs cs' :
  r = r' -> cs = cs' -> behaves m r' cs' -> behaves m r cs.
Proof. now intros -> ->. Qed.

(** ** Programs that never inspect the log *)

Lemma log_free_ret {A} (a : A) : log_free (ret a).
Proof. apply behaves_ret. Qed.

Lemma log_free_throw {A} e : log_free (@throw A e).
Proof. apply behaves_throw. Qed.

Lemma log_free_await {A} c (o : option A) s : log_free (await c o s).
Proof. destruct o; intros log; reflexivity. Qed.

Lemma log_free_bind {A B} (m : Build A) (k : A -> Build B) :
  log_free m -> (forall a, log_free (k a)) -> log_free (bind m k).
Proof.
  intros Hm Hk log. unfold bind. rewrite (Hm log), (Hm []). simpl.
  destruct (fst (m [])) as [e|a]; [reflexivity|].
  rewrite (Hk a (log ++ _)), (Hk a (snd (m []))). simpl. now rewrite app_assoc.
Qed.

#[export] Hint Resolve log_free_ret log_free_throw log_free_await : harry.

Ltac log_free_tac :=
  repeat first [ apply log_free_bind; [|intros ?]
               | apply log_free_ret | apply log_free_throw | apply log_free_await ].

(** [Promise.all] issues every task's requests, whatever settles. *)
Lemma promise_all_behaves {B} (tasks : list (Build B)) :
  behaves (promise_all tasks) (all_settled (map (fun t => fst (t [])) tasks))
          (flat_map (fun t => snd (t [])) tasks).
Proof.
  intros log. unfold promise_all. rewrite map_map, flat_map_concat_map, map_map.
  now rewrite <- flat_map_concat_map.
Qed.

(** ** The for-of loop *)

Section ForOf.
Context {A B : Type} (f : A -> Build B).

(** Every iteration succeeds: the loop returns the mapped list and its
    log is the concatenation of the iterations' calls, in order. *)
Lemma for_of_push_ok (g : A -> B) (calls : A -> list ext_call) :
  forall xs acc,
    (forall x, In x xs -> behaves (f x) (inr (g x)) (calls x)) ->
    behaves (for_of_push f acc xs) (inr (acc ++ map g xs)) (flat_map calls xs).
Proof.
  induction xs as [|x xs IH]; intros acc Hf; simpl.
  - rewrite app_nil_r. apply behaves_ret.
  - apply behaves_bind_ok with (a := g x); [apply Hf; now left|].
    replace (acc ++ g x :: map g xs) with ((acc ++ [g x]) ++ map g xs)
      by now rewrite <- app_assoc.
    apply IH. intros y Hy. apply Hf. now right.
Qed.

(** An iteration fails: the loop stops there, later elements are never
    visited. *)
Lemma for_of_push_fail (g : A -> B) (calls : A -> list ext_call) pre x post e cx :
  forall acc,
    (forall y, In y pre -> behaves (f y) (inr (g y)) (calls y)) ->
    behaves (f x) (inl e) cx ->
    behaves (for_of_push f acc (pre ++ x :: post)) (inl e) (flat_map calls pre ++ cx).
Proof.
  induction pre as [|y pre IH]; intros acc Hpre Hx; simpl.
  - now apply behaves_bind_fail.
  - rewrite <- app_assoc.
    apply behaves_bind_ok with (a := g y); [apply Hpre; now left|].
    apply IH; [|exact Hx]. intros z Hz. apply Hpre. now right.
Qed.
(** The exact run of the loop over log-free iterations: the first
    failing iteration's error, or all results; the requests of the
    iterations up to the first failure. *)
Lemma for_of_push_run xs :
  forall acc, (forall x, In x xs -> log_free (f x)) ->
  behaves (for_of_push f acc xs)
    (match all_settled (map (fun x => fst (f x [])) xs) with
     | inl e => inl e
     | inr ys => inr (acc ++ ys)
     end)
    (calls_until_failure (map (fun x => f x []) xs)).
Proof.
  induction xs as [|x xs IH]; intros acc Hf; simpl.
  - rewrite app_nil_r. apply behaves_ret.
  - pose proof (Hf x (or_introl eq_refl)) as Hx.
    unfold log_free in Hx.
    destruct (f x []) as [[e|y] cs] eqn:Ex; simpl in Hx |- *.
    + now apply behaves_bind_fail.
    + eapply behaves_bind_ok; [exact Hx|].
      eapply behaves_ext; [|reflexivity|apply IH; intros z Hz; apply Hf; now right].
      destruct (all_settled _); [reflexivity|]. now rewrite <- app_assoc.
Qed.

End ForOf.

(** ** Sequential against joined requests *)

(** A sequential loop issues a prefix of what [Promise.all] issues. *)
Lemma calls_until_failure_prefix {B} (rs : list ((build_error + B) * list ext_call)) :
  exists rest, flat_map snd rs = calls_until_failure rs ++ rest.
Proof.
  induction rs as [|[[e|b] cs] rs [rest IH]]; simpl.
  - now exists [].
  - now exists (flat_map snd rs).
  - exists rest. now rewrite IH, app_assoc.
Qed.

(** When nothing fails, both issue the same requests. *)
Lemma calls_until_failure_all_ok {B} (rs : list ((build_error + B) * list ext_call)) :
  (forall r, In r rs -> exists b, fst r = inr b) ->
  calls_until_failure rs = flat_map snd rs.
Proof.
  induction rs as [|[r cs] rs IH]; intros H; simpl; [reflexivity|].
  destruct (H _ (or_introl eq_refl)) as [b Hb]; simpl in Hb; subst r.
  f_equal. apply IH. intros r' Hr'. apply H. now right.
Qed.

Lemma all_settled_ok {B} (rs : list (build_error + B)) :
  (forall r, In r rs -> exists b, r = inr b) ->
  exists bs, all_settled rs = inr bs /\ map inr bs = rs.
Proof.
  induction rs as [|r rs IH]; intros H; simpl; [now exists []|].
  destruct (H r (or_introl eq_refl)) as [b ->].
  destruct IH as [bs [-> Hbs]]; [intros r' Hr'; apply H; now right|].
  exists (b :: bs). simpl. now rewrite Hbs.
Qed.

(** A join fails with the first failure in array order. *)

(** Past iterations that all succeeded, a loop goes on with the rest. *)
Lemma calls_until_failure_app_ok {B} (rs1 rs2 : list ((build_error + B) * list ext_call)) :
  (forall r, In r rs1 -> exists b, fst r = inr b) ->
  calls_until_failure (rs1 ++ rs2) = flat_map snd rs1 ++ calls_until_failure rs2.
Proof.
  induction rs1 as [|[r cs] rs1 IH]; intros H; simpl; [reflexivity|].
  destruct (H _ (or_introl eq_refl)) as [b Hb]; simpl in Hb; subst r.
  rewrite IH, app_assoc; [reflexivity|]. intros r' Hr'. apply H. now right.
Qed.

(** An iteration's requests are issued before its outcome is known. *)
Lemma calls_until_failure_head {B} (r : (build_error + B) * list ext_call) rs :
  exists rest, calls_until_failure (r :: rs) = snd r ++ rest.
Proof.
  destruct r as [[e|b] cs]; simpl; [exists []; now rewrite app_nil_r|eexists; reflexivity].
Qed.

(** A successful join holds the tasks' results, in order. *)
Lemma all_settled_inr {B} (rs : list (build_error + B)) bs :
  all_settled rs = inr bs -> rs = map inr bs.
Proof.
  revert bs. induction rs as [|[e|b] rs IH]; intros bs; simpl; [now intros [= <-]|discriminate|].
  destruct (all_settled rs) as [|bs']; [discriminate|].
  intros [= <-]. simpl. now rewrite (IH bs' eq_refl).
Qed.

(** A join fails exactly when some task fails. *)
Lemma all_settled_fail {B} (rs : list (build_error + B)) e :
  all_settled rs = inl e -> In (inl e) rs.
Proof.
  induction rs as [|[e'|b] rs IH]; simpl; [discriminate| |].
  - intros [= ->]. now left.
  - destruct (all_settled rs); [|discriminate]. intros [= ->]. right. now apply IH.
Qed.

(** ** Shared list lemmas *)

Lemma filter_ext_in {A} (f g : A -> bool) (l : list A) :
  (forall x, In x l -> f x = g x) -> filter f l = filter g l.
Proof.
  induction l as [|x l IH]; intros H; simpl; [reflexivity|].
  rewrite (H x (or_introl eq_refl)), IH; [reflexivity|].
  intros y Hy. apply H. now right.
Qed.

Lemma filter_all_false {A} (f : A -> bool) (l : list A) :
  (forall x, In x l -> f x = false) -> filter f l = [].
Proof.
  intros H. induction l as [|x l IH]; simpl; [reflexivity|].
  rewrite (H x (or_introl eq_refl)). apply IH. intros y Hy. apply H. now right.
Qed.

(** ** Lexicographic order on strings *)

Lemma string_compare_refl s : String.compare s s = Eq.
Proof.
  induction s as [|a s IH]; simpl; [reflexivity|].
  unfold Ascii.compare. now rewrite N.compare_refl.
Qed.

Lemma string_compare_lt_trans s t u :
  String.compare s t = Lt -> String.compare t u = Lt -> String.compare s u = Lt.
Proof.
  revert t u. induction s as [|a s IH]; intros [|b t] [|c u]; simpl;
    try discriminate; auto.
  unfold Ascii.compare.
  destruct (N.compare_spec (Ascii.N_of_ascii a) (Ascii.N_of_ascii b)) as [Hab|Hab|Hab];
  destruct (N.compare_spec (Ascii.N_of_ascii b) (Ascii.N_of_ascii c)) as [Hbc|Hbc|Hbc];
  intros H1 H2; try discriminate;
  first [ rewrite (proj2 (N.compare_lt_iff _ _)) by lia; reflexivity
        | rewrite (proj2 (N.compare_eq_iff _ _)) by lia; eauto ].
Qed.

Lemma string_compare_le_trans s t u :
  String.compare s t <> Gt -> String.compare t u <> Gt -> String.compare s u <> Gt.
Proof.
  intros H1 H2. destruct (String.compare s t) eqn:Hst; [| |congruence].
  - now apply String.compare_eq_iff in Hst as ->.
  - destruct (String.compare t u) eqn:Htu; [| |congruence].
    + apply String.compare_eq_iff in Htu as ->. now rewrite Hst.
    + now rewrite (string_compare_lt_trans s t u).
Qed.
