(* ===== verification/JsSort.v ===== *)
(** * [Array.prototype.sort] with a comparator

    Both list pages sort with [arr.sort((a, b) => ...)].  ECMAScript 2019
    fixes what the call must return for a consistent comparator (a sorted,
    stable permutation) and leaves the algorithm to the engine.  We model it
    by the stable insertion sort [JsArray.sort], state the contract as the
    class [StableSortContract], and prove that every implementation meeting
    it returns exactly what [JsArray.sort] returns: the model is valid for
    any conforming engine.  [JsArray.sortE] is the same sort with a
    comparator that may throw (achievements). *)

From Stdlib Require Import List Sorted Permutation ZArith Lia Bool.
From S2P Require Import Prelude.
Import ListNotations.
Open Scope Z_scope.

Module JsArray.

Section Sort.
Context {A : Type} (cmp : A -> A -> Z).

(** [SortCompare(x, y) <= 0] keeps [x] in front of [y]. *)
Fixpoint insert (x : A) (l : list A) : list A :=
match l with
| [] => [x]
| y :: ys => if cmp x y <=? 0 then x :: y :: ys else y :: insert x ys
end.

Fixpoint sort (l : list A) : list A :=
match l with
| [] => []
| x :: xs => insert x (sort xs)
end.

(** The order the result must respect, and the equivalence classes whose
  internal order stability preserves. *)
Definition le (x y : A) : Prop := cmp x y <= 0.
Definition eqv (x y : A) : bool := cmp x y =? 0.

(** "[l'] lists each class of [l] in the order of [l]". *)
Definition stable_wrt (l' l : list A) : Prop :=
forall a, filter (eqv a) l' = filter (eqv a) l.
End Sort.

(** ECMAScript's consistent comparator (ES2019, 22.1.3.27). *)
Class Consistent {A} (cmp : A -> A -> Z) : Prop := {
cmp_refl : forall x, cmp x x = 0;
cmp_lt_gt : forall x y, cmp x y < 0 <-> 0 < cmp y x;
cmp_eq_sym : forall x y, cmp x y = 0 -> cmp y x = 0;
cmp_le_trans : forall x y z, cmp x y <= 0 -> cmp y z <= 0 -> cmp x z <= 0
}.

(** The contract of [Array.prototype.sort] for consistent comparators. *)
Class StableSortContract (impl : forall A, (A -> A -> Z) -> list A -> list A)
: Prop := {
contract_perm : forall A cmp (l : list A), Permutation (impl A cmp l) l;
contract_sorted : forall A (cmp : A -> A -> Z), Consistent cmp ->
  forall l, StronglySorted (le cmp) (impl A cmp l);
contract_stable : forall A (cmp : A -> A -> Z), Consistent cmp ->
  forall l, stable_wrt cmp (impl A cmp l) l
}.

(** A comparator that may throw: [sortE] stops at the first exception. *)
Section SortE.
Context {A : Type} (cmpE : A -> A -> build_error + Z).

Fixpoint insertE (x : A) (l : list A) : build_error + list A :=
match l with
| [] => inr [x]
| y :: ys =>
    match cmpE x y with
    | inl e => inl e
    | inr c =>
        if c <=? 0 then inr (x :: y :: ys)
        else match insertE x ys with
             | inl e => inl e
             | inr r => inr (y :: r)
             end
    end
end.

Fixpoint sortE (l : list A) : build_error + list A :=
match l with
| [] => inr []
| x :: xs =>
    match sortE xs with
    | inl e => inl e
    | inr s => insertE x s
    end
end.
End SortE.

(** ** Consequences of consistency *)
Section Consistency.
Context {A : Type} (cmp : A -> A -> Z) `{!Consistent cmp}.

Lemma le_total x y : le cmp x y \/ le cmp y x.
Proof.
unfold le. destruct (Z_le_gt_dec (cmp x y) 0) as [H|H]; [now left|].
right. pose proof (cmp_lt_gt y x). lia.
Qed.

Lemma le_antisym_eq x y : le cmp x y -> le cmp y x -> cmp x y = 0.
Proof.
unfold le. intros H1 H2. pose proof (cmp_lt_gt x y). lia.
Qed.

Lemma eqv_sym x y : eqv cmp x y = eqv cmp y x.
Proof.
unfold eqv. destruct (cmp x y =? 0) eqn:E1, (cmp y x =? 0) eqn:E2;
  rewrite ?Z.eqb_eq, ?Z.eqb_neq in *; auto.
- now apply cmp_eq_sym in E1.
- now apply cmp_eq_sym in E2.
Qed.

Lemma eqv_le x y : eqv cmp x y = true -> le cmp x y /\ le cmp y x.
Proof.
unfold eqv, le. rewrite Z.eqb_eq. intros H.
pose proof (cmp_eq_sym _ _ H). lia.
Qed.

Lemma eqv_trans x y z :
eqv cmp x y = true -> eqv cmp y z = true -> eqv cmp x z = true.
Proof.
intros Hxy Hyz. apply eqv_le in Hxy as [], Hyz as [].
unfold eqv. apply Z.eqb_eq. apply le_antisym_eq; eapply cmp_le_trans; eauto.
Qed.

(** Members of one class see the same class. *)
Lemma eqv_class a x z :
eqv cmp a x = true -> eqv cmp a z = eqv cmp x z.
Proof.
intros Hax. destruct (eqv cmp x z) eqn:Hxz.
- eapply eqv_trans; eauto.
- destruct (eqv cmp a z) eqn:Haz; [|reflexivity].
  rewrite <- Hxz. symmetry. eapply eqv_trans; [|exact Haz]. now rewrite eqv_sym.
Qed.
End Consistency.

#[export] Hint Resolve le_total le_antisym_eq eqv_trans : harry.

(** ** The sort: permutation, order, stability *)
Section SortFacts.
Context {A : Type} (cmp : A -> A -> Z).

Lemma insert_perm x l : Permutation (insert cmp x l) (x :: l).
Proof.
induction l as [|y ys IH]; simpl; [auto|].
destruct (cmp x y <=? 0); [auto|].
eapply perm_trans; [apply perm_skip, IH|apply perm_swap].
Qed.

(** the sorted array holds exactly the elements of the input. *)
Lemma sort_perm l : Permutation (sort cmp l) l.
Proof.
induction l as [|x xs IH]; simpl; [auto|].
eapply perm_trans; [apply insert_perm|]. now apply perm_skip.
Qed.

Context `{!Consistent cmp}.

Lemma le_refl x : le cmp x x.
Proof. unfold le. rewrite cmp_refl. lia. Qed.

Lemma eqv_refl x : eqv cmp x x = true.
Proof. unfold eqv. now rewrite cmp_refl. Qed.

Lemma insert_sorted x l :
StronglySorted (le cmp) l -> StronglySorted (le cmp) (insert cmp x l).
Proof.
induction l as [|y ys IH]; intros Hs; simpl.
- repeat constructor.
- apply StronglySorted_inv in Hs as [Hys Hy].
  destruct (cmp x y <=? 0) eqn:Hxy.
  + apply Z.leb_le in Hxy. constructor; [now constructor|].
    constructor; [exact Hxy|].
    eapply Forall_impl; [|exact Hy]. intros z Hz. eapply cmp_le_trans; eauto.
  + apply Z.leb_gt in Hxy. constructor; [now apply IH|].
    eapply Permutation_Forall; [symmetry; apply insert_perm|].
    constructor; [|exact Hy]. unfold le. pose proof (cmp_lt_gt y x). lia.
Qed.

Lemma sort_sorted l : StronglySorted (le cmp) (sort cmp l).
Proof. induction l; simpl; [constructor|now apply insert_sorted]. Qed.

Lemma insert_filter_eqv a x l :
filter (eqv cmp a) (insert cmp x l) = filter (eqv cmp a) (x :: l).
Proof.
induction l as [|y ys IH]; simpl; [reflexivity|].
destruct (cmp x y <=? 0) eqn:Hxy; [reflexivity|].
simpl. rewrite IH. simpl.
destruct (eqv cmp a x) eqn:Hax, (eqv cmp a y) eqn:Hay; try reflexivity.
exfalso. rewrite (eqv_class cmp a x y Hax) in Hay.
unfold eqv in Hay. apply Z.eqb_eq in Hay. rewrite Hay in Hxy. discriminate.
Qed.

Lemma sort_stable l : stable_wrt cmp (sort cmp l) l.
Proof.
intros a. induction l as [|x xs IH]; simpl; [reflexivity|].
rewrite insert_filter_eqv. simpl. now rewrite IH.
Qed.

Lemma stable_in l1 l2 y : stable_wrt cmp l1 l2 -> In y l2 -> In y l1.
Proof.
intros H Hy. assert (Hf : In y (filter (eqv cmp y) l2))
  by (apply filter_In; split; [exact Hy|apply eqv_refl]).
rewrite <- H in Hf. now apply filter_In in Hf as [].
Qed.

Lemma sorted_head_le x r y :
StronglySorted (le cmp) (x :: r) -> In y (x :: r) -> le cmp x y.
Proof.
intros Hs [<-|Hy]; [apply le_refl|].
apply StronglySorted_inv in Hs as [_ Hf]. now apply (proj1 (Forall_forall _ _) Hf).
Qed.

(** Two sorted lists that list every class in the same order are equal:
  sortedness and stability determine the result of a sort. *)
Lemma sorted_stable_unique l1 l2 :
StronglySorted (le cmp) l1 -> StronglySorted (le cmp) l2 ->
stable_wrt cmp l1 l2 -> l1 = l2.
Proof.
revert l2. induction l1 as [|x r1 IH]; intros l2 H1 H2 Hst.
- destruct l2 as [|y r2]; [reflexivity|].
  exfalso. apply (stable_in [] (y :: r2) y Hst). now left.
- destruct l2 as [|y r2].
  + exfalso. apply (stable_in [] (x :: r1) x); [|now left].
    intros a. symmetry. apply Hst.
  + assert (Hxy : eqv cmp x y = true).
    { unfold eqv. apply Z.eqb_eq, le_antisym_eq; [exact _|..].
      - apply (sorted_head_le x r1 y H1), (stable_in _ (y :: r2)); [exact Hst|now left].
      - apply (sorted_head_le y r2 x H2), (stable_in _ (x :: r1)); [|now left].
        intros a. symmetry. apply Hst. }
    pose proof (Hst x) as Hx. simpl in Hx. rewrite eqv_refl, Hxy in Hx.
    injection Hx as <- _. f_equal.
    apply IH; [now apply StronglySorted_inv in H1|now apply StronglySorted_inv in H2|].
    intros a. pose proof (Hst a) as Ha. simpl in Ha.
    destruct (eqv cmp a x); [now injection Ha|exact Ha].
Qed.

Lemma sort_idempotent l : sort cmp (sort cmp l) = sort cmp l.
Proof.
apply sorted_stable_unique; [apply sort_sorted..|]. apply sort_stable.
Qed.
End SortFacts.

#[export] Instance sort_contract : StableSortContract (@sort).
Proof.
constructor.
- intros. apply sort_perm.
- intros. now apply sort_sorted.
- intros. now apply sort_stable.
Qed.

(** Refinement.  Every implementation meeting the ECMAScript contract
  of [Array.prototype.sort] (a stable, sorted permutation for a consistent
  comparator) returns exactly what the insertion-sort model returns. *)
Lemma contract_agrees impl `{!StableSortContract impl} {A} (cmp : A -> A -> Z)
`{!Consistent cmp} l :
impl A cmp l = sort cmp l.
Proof.
apply (sorted_stable_unique cmp).
- exact (contract_sorted A cmp _ l).
- exact (sort_sorted cmp l).
- intros a. rewrite (contract_stable A cmp _ l a). symmetry. exact (sort_stable cmp l a).
Qed.

(** In a sorted list, an element strictly before another in the order sits
  at a smaller index. *)
Lemma sorted_nth_before {A} (R : A -> A -> Prop) (Hrefl : forall a, R a a) l i j x y :
StronglySorted R l -> nth_error l i = Some x -> nth_error l j = Some y ->
~ R y x -> (i < j)%nat.
Proof.
revert i j. induction l as [|z l IH]; intros [|i] [|j] Hs Hi Hj Hyx;
  simpl in *; try discriminate; try lia.
- injection Hi as <-. injection Hj as <-. now destruct (Hyx (Hrefl z)).
- injection Hj as <-. exfalso. apply Hyx.
  apply StronglySorted_inv in Hs as [_ Hf]. eapply Forall_forall; [exact Hf|].
  eapply nth_error_In; eauto.
- apply StronglySorted_inv in Hs as [Hs _]. specialize (IH i j Hs Hi Hj Hyx). lia.
Qed.

(** ** The sort with a throwing comparator *)
Section SortEFacts.
Context {A : Type}.

Lemma insertE_total (cmpE : A -> A -> build_error + Z) (cmp : A -> A -> Z) x s :
(forall y, In y s -> cmpE x y = inr (cmp x y)) ->
insertE cmpE x s = inr (insert cmp x s).
Proof.
induction s as [|y ys IH]; intros Hc; simpl; [reflexivity|].
rewrite Hc by now left. destruct (cmp x y <=? 0); [reflexivity|].
rewrite IH; [reflexivity|]. intros z Hz. apply Hc. now right.
Qed.

(** A comparator that returns on every pair of elements of the array
  sorts like its pure counterpart. *)
Lemma sortE_total (cmpE : A -> A -> build_error + Z) (cmp : A -> A -> Z) l :
(forall x y, In x l -> In y l -> cmpE x y = inr (cmp x y)) ->
sortE cmpE l = inr (sort cmp l).
Proof.
induction l as [|x xs IH]; intros Hc; simpl; [reflexivity|].
rewrite IH by (intros; apply Hc; now right).
apply insertE_total. intros y Hy. apply Hc; [now left|].
right. eapply Permutation_in; [apply sort_perm|exact Hy].
Qed.

(** A comparator that throws on every pair of elements of an array of
  two or more makes the sort throw. *)
Lemma sortE_all_throw (cmpE : A -> A -> build_error + Z) e l :
(forall x y, In x l -> In y l -> cmpE x y = inl e) -> (2 <= length l)%nat ->
sortE cmpE l = inl e.
Proof.
induction l as [|x xs IH]; intros Hc Hlen; [simpl in Hlen; lia|].
destruct xs as [|y [|z r]]; [simpl in Hlen; lia| |].
- simpl. rewrite Hc; [reflexivity|now left|now right; left].
- change (sortE cmpE (x :: y :: z :: r)) with
    (match sortE cmpE (y :: z :: r) with
     | inl e => inl e | inr s => insertE cmpE x s end).
  rewrite IH; [reflexivity| |simpl; lia].
  intros a b Ha Hb. apply Hc; now right.
Qed.

(** A run of the throwing sort that succeeds is the pure sort of the
  comparator the successful calls agree with. *)
Lemma insertE_agrees (cmpE : A -> A -> build_error + Z) (cmp : A -> A -> Z) x s r :
(forall x y c, cmpE x y = inr c -> c = cmp x y) ->
insertE cmpE x s = inr r -> r = insert cmp x s.
Proof.
intros Hc. revert r. induction s as [|y ys IH]; intros r; simpl; [congruence|].
destruct (cmpE x y) as [e|c] eqn:Hxy; [discriminate|].
rewrite <- (Hc _ _ _ Hxy). destruct (c <=? 0); [congruence|].
destruct (insertE cmpE x ys) as [e|r'] eqn:Hr; [discriminate|].
intros Heq. injection Heq as <-. now rewrite (IH r' eq_refl).
Qed.

Lemma sortE_agrees (cmpE : A -> A -> build_error + Z) (cmp : A -> A -> Z) l s :
(forall x y c, cmpE x y = inr c -> c = cmp x y) ->
sortE cmpE l = inr s -> s = sort cmp l.
Proof.
intros Hc. revert s. induction l as [|x xs IH]; intros s; simpl; [congruence|].
destruct (sortE cmpE xs) as [e|s'] eqn:Hs; [discriminate|].
rewrite (IH s' eq_refl). now apply insertE_agrees.
Qed.
End SortEFacts.

End JsArray.
