(* ===== verification/NextConfig.v ===== *)
(** * [src/next.config.js]

    The configuration allows one remote image host for [next/image]; the
    content-layer wrapper only adds the build plugin.  The record is data:
    no theorem of the development depends on it. *)

From Stdlib Require Import List String.
From S2P Require Import Prelude.
Import ListNotations.
Open Scope string_scope.

Module NextConfig.

Record ImagesConfig := { domains : list string }.
Record Config := { images : ImagesConfig }.

(** [withContentlayer({ images: { domains: ["res.cloudinary.com"] } })];
    the content-layer wrapper only adds the build plugin. *)
Definition next_config : Config :=
  {| images := {| domains := ["res.cloudinary.com"] |} |}.

End NextConfig.
