(* ===== verification/Content.v ===== *)
(** * Documents of the content layer ([contentlayer/generated])

    The generated module is not part of the repository's sources; its
    document types are modelled from the fields the pages read (spec §3).
    Optional fields are [option]: [None] is [undefined]. *)

From Stdlib Require Import List String ZArith.
From S2P Require Import Prelude.

Module Content.

Record CloudinaryImage := { url : string }.

Record Project := {
  _id : string;
  slug : string;
  name : string;
  description : string;
  link : string;
  githubLink : string;
  image : option CloudinaryImage;
  level : option Z;
  video : option string;
  badges : list string
}.

Record MdxBody := { code : string }.

Record Achievement := {
  a_id : string;                          (* [_id] *)
  title : string;
  body : MdxBody;
  date : option string;
  prizeValue : option string;
  proof : option string;
  a_image : option CloudinaryImage         (* [image] *)
}.

End Content.
