(* ===== verification/ProjectCard.v ===== *)
(** * [src/components/Projects/ProjectCard/ProjectCard.tsx]

    The card renders one project.  The helpers of [@/utils/helpers] are not
    in the repository's sources: they form the interface [Helpers], and
    every theorem holds for every implementation of it.  The card receives
    the attribute object the projects page builds (index.tsx, 32-43); it
    destructures only the [ProjectProps] fields and reads [image.url]
    without a guard. *)

From Stdlib Require Import List String Bool.
From S2P Require Import Prelude Content.
Import ListNotations.
Open Scope string_scope.

(** The functions of [@/utils/helpers] the sources call. *)
Class Helpers := {
  cleanLink : string -> string;
  getGitHubOwnerAndRepoFromLink : string -> string;
  isAbsoluteURL : string -> bool
}.

Module ProjectCard.
Import Content.

(** [interface ProjectProps] (lines 9-16); [image] may be absent at run
    time although the type says otherwise. *)
Record ProjectProps := {
  p_slug : string;
  p_name : string;
  p_description : string;
  p_link : string;
  p_githubLink : string;
  p_image : option CloudinaryImage
}.

(** The attributes [<ProjectCard .../>] is given by the projects page. *)
Record CardAttrs := {
  key : string;
  props : ProjectProps;
  video_attr : option string;
  badges_attr : list string;
  placeholderImage_attr : option string
}.

(** [<Link href icon>{text}</Link>] of [@/components/Shared/Link]. *)
Record LinkView := { href : string; text : string; with_icon : bool }.

Record CardView := {
  image_src : string;          (* <NextImage src={image.url} alt={name}> *)
  image_alt : string;
  heading : string;            (* <h2>{name}</h2> *)
  paragraph : string;          (* <p>{description}</p> *)
  links : list LinkView;       (* the two conditional links *)
  learn_more : LinkView        (* <Link href={`/projects/${slug}`}> *)
}.

(** The render function (lines 18-58). *)
Definition render `{Helpers} (a : CardAttrs) : build_error + CardView :=
  let p := props a in
  match p_image p with
  | None => inl (TypeError "image.url")
  | Some img =>
      inr {| image_src := url img;
             image_alt := p_name p;
             heading := p_name p;
             paragraph := p_description p;
             links :=
               (if truthy (p_link p)
                then [{| href := p_link p; text := cleanLink (p_link p);
                         with_icon := false |}] else [])
               ++ (if truthy (p_githubLink p)
                   then [{| href := p_githubLink p;
                            text := getGitHubOwnerAndRepoFromLink (p_githubLink p);
                            with_icon := true |}] else []);
             learn_more := {| href := "/projects/" ++ p_slug p;
                              text := "Learn More"; with_icon := false |} |}
  end.

End ProjectCard.

Module ProjectCardFacts.
Import Content ProjectCard.

Section WithHelpers.
Context `{Helpers}.

(** C11: the card reads only the [ProjectProps] fields: the placeholder
    image computed at build time (and [video], [badges]) never reach the
    rendered card. *)
Lemma render_ignores_placeholder k pp v1 b1 ph1 v2 b2 ph2 :
  render {| key := k; props := pp; video_attr := v1; badges_attr := b1;
            placeholderImage_attr := ph1 |}
  = render {| key := k; props := pp; video_attr := v2; badges_attr := b2;
              placeholderImage_attr := ph2 |}.
Proof. reflexivity. Qed.

(** The only way the card fails is the unguarded [image.url]. *)
Lemma render_error a e :
  render a = inl e <-> p_image (props a) = None /\ e = TypeError "image.url".
Proof.
  unfold render. destruct (p_image (props a)); split; intros Hr;
    try discriminate; try (destruct Hr; discriminate); try now injection Hr.
  destruct Hr as [_ ->]. reflexivity.
Qed.

Lemma render_ok a img :
  p_image (props a) = Some img ->
  exists v, render a = inr v /\ image_src v = url img /\
            learn_more v = {| href := "/projects/" ++ p_slug (props a);
                              text := "Learn More"; with_icon := false |}.
Proof. unfold render. intros ->. eexists; repeat split. Qed.
End WithHelpers.
End ProjectCardFacts.
