(* ===== verification/Projects.v ===== *)
(** * [src/pages/projects/index.tsx]

    [getStaticProps] (lines 58-77) walks the content layer's projects in
    order; for each it awaits [getPreviewImageUrl] when the image URL is
    absolute, keeps the URL itself otherwise, and [null] without an image.
    The page (lines 20-56) sorts the props array in place by
    [(b.level || 0) - (a.level || 0)] and renders one card per project.

    [Projects.Build] models the data function (the loop body is
    [withPlaceholder]), [Projects.Page] the component, whose output
    [ProjectsView] holds the SEO head, the heading, the cards and the
    GitHub link; the pure [resolved]/[preview_calls] are the abstract
    specification that [getStaticProps] refines.  [ProjectsFacts] proves
    the refinement, the error paths, termination with at most one request
    per project, and the ordering, stability and key properties of the
    page. *)

From Stdlib Require Import List String ZArith Lia Bool Sorted Permutation.
From S2P Require Import Prelude JsSort Content ProjectCard.
Import ListNotations.
Open Scope string_scope.

Module Projects.
Import Content ProjectCard.

(** [interface ProjectWithPlaceholderImage extends Project] (12-14). *)
Record ProjectWithPlaceholderImage := {
  project : Project;
  placeholderImage : option string
}.

(** [interface ProjectsPageProps] (16-18). *)
Record ProjectsPageProps := {
  allProjectsWithPlaceholderImages : list ProjectWithPlaceholderImage
}.

Section Build.
Context `{Helpers}.
(** [getPreviewImageUrl] of [@/utils/getPreviewImageURL] asks an external
    service; its answer for each URL, [None] when the request rejects. *)
Variable getPreviewImageUrl : string -> option string.

(** Lines 62-66. *)
Definition previewUrl (p : Project) : Build (option string) :=
  match image p with
  | Some img =>
      if isAbsoluteURL (url img)
      then do u <- await (PreviewImageCall (url img))
                         (getPreviewImageUrl (url img)) "preview-image" ;
           ret (Some u)
      else ret (Some (url img))
  | None => ret None
  end.

(** Lines 62-71: one iteration, [{...project, placeholderImage: previewUrl}]. *)
Definition withPlaceholder (p : Project) : Build ProjectWithPlaceholderImage :=
  do u <- previewUrl p ;
  ret {| project := p; placeholderImage := u |}.

(** Lines 58-77: the for-of loop pushing each iteration's record. *)
Definition getStaticProps (allProjects : list Project) : Build ProjectsPageProps :=
  do xs <- for_of_push withPlaceholder [] allProjects ;
  ret {| allProjectsWithPlaceholderImages := xs |}.

(** The specification: the placeholder each project must get, and the
    service requests the build makes for it. *)
Definition resolved (p : Project) : option string :=
  match image p with
  | Some img =>
      if isAbsoluteURL (url img) then getPreviewImageUrl (url img)
      else Some (url img)
  | None => None
  end.

Definition preview_calls (p : Project) : list ext_call :=
  match image p with
  | Some img => if isAbsoluteURL (url img) then [PreviewImageCall (url img)] else []
  | None => []
  end.

(** The service answers for this project, if it is asked at all. *)
Definition service_answers (p : Project) : Prop :=
  forall img, image p = Some img -> isAbsoluteURL (url img) = true ->
  getPreviewImageUrl (url img) <> None.
End Build.

(** A build's result: its records, or its error, from the iterations' results. *)
Definition props_of (r : build_error + list ProjectWithPlaceholderImage)
  : build_error + ProjectsPageProps :=
  match r with
  | inl e => inl e
  | inr xs => inr {| allProjectsWithPlaceholderImages := xs |}
  end.

(** What the page renders (lines 23-55): the [NextSeo] head, the heading,
    the cards, and the link to the GitHub repositories. *)
Record ProjectsView := {
  seo_title : string;
  seo_description : string;
  page_heading : string;
  cards : list (string * CardView);
  more_href : string;
  more_text : string
}.

Section Page.
Context `{Helpers}.

(** [(a, b) => (b.level || 0) - (a.level || 0)] (line 31). *)
Definition level_cmp (a b : ProjectWithPlaceholderImage) : Z :=
  (or_zero (level (project b)) - or_zero (level (project a)))%Z.

(** The attributes of [<ProjectCard key=... />] (lines 32-43). *)
Definition card_attrs (p : ProjectWithPlaceholderImage) : CardAttrs :=
  let q := project p in
  {| key := _id q;
     props := {| p_slug := slug q; p_name := name q;
                 p_description := description q; p_link := link q;
                 p_githubLink := githubLink q; p_image := image q |};
     video_attr := video q;
     badges_attr := badges q;
     placeholderImage_attr := placeholderImage p |}.

(** [.map(project => <ProjectCard key={project._id} .../>)]: each card is
    paired with its [key] attribute; rendering stops at the first card
    that throws. *)
Fixpoint render_cards (ps : list ProjectWithPlaceholderImage)
  : build_error + list (string * CardView) :=
  match ps with
  | [] => inr []
  | p :: rest =>
      match ProjectCard.render (card_attrs p) with
      | inl e => inl e
      | inr v =>
          match render_cards rest with
          | inl e => inl e
          | inr vs => inr ((key (card_attrs p), v) :: vs)
          end
      end
  end.

(** The component: [Array.prototype.sort] sorts the props array in place
    (the props object afterwards holds the sorted array), then the cards
    are rendered in that order. *)
Definition ProjectsPage (pp : ProjectsPageProps)
  : ProjectsPageProps * (build_error + ProjectsView) :=
  let sorted := JsArray.sort level_cmp (allProjectsWithPlaceholderImages pp) in
  ({| allProjectsWithPlaceholderImages := sorted |},
   match render_cards sorted with
   | inl e => inl e
   | inr cs =>
       inr {| seo_title := "Projects | Harry Schiller";
              seo_description := "Projects worked upon by Harry Schiller";
              page_heading := "Projects";
              cards := cs;
              more_href := "https://github.com/waitingwittykitty?tab=repositories";
              more_text := "View more on GitHub" |}
   end).

(** The array the page renders, as left in the props by the sort. *)
Definition displayed (pp : ProjectsPageProps) : list ProjectWithPlaceholderImage :=
  allProjectsWithPlaceholderImages (fst (ProjectsPage pp)).
End Page.

End Projects.

Module ProjectsFacts.
Import Content ProjectCard ProjectCardFacts Projects.

#[export] Instance level_cmp_consistent `{Helpers} : JsArray.Consistent level_cmp.
Proof. constructor; intros; unfold level_cmp in *; lia. Qed.

Section BuildFacts.
Context `{Helpers} (getPreviewImageUrl : string -> option string).

Lemma previewUrl_behaves p :
  service_answers getPreviewImageUrl p ->
  behaves (previewUrl getPreviewImageUrl p)
          (inr (resolved getPreviewImageUrl p)) (preview_calls p).
Proof.
  unfold service_answers, previewUrl, resolved, preview_calls. intros Hs.
  destruct (image p) as [img|]; [|apply behaves_ret].
  destruct (isAbsoluteURL (url img)) eqn:Ha; [|apply behaves_ret].
  destruct (getPreviewImageUrl (url img)) as [u|] eqn:Hu;
    [|now destruct (Hs img eq_refl Ha)].
  rewrite <- (app_nil_r [_]).
  eapply behaves_bind_ok; [apply behaves_await_ok|apply behaves_ret].
Qed.

Lemma step_behaves p :
  service_answers getPreviewImageUrl p ->
  behaves (withPlaceholder getPreviewImageUrl p)
          (inr {| project := p; placeholderImage := resolved getPreviewImageUrl p |})
          (preview_calls p).
Proof.
  intros Hs. unfold withPlaceholder. rewrite <- (app_nil_r (preview_calls p)).
  eapply behaves_bind_ok; [now apply previewUrl_behaves|apply behaves_ret].
Qed.

Lemma withPlaceholder_log_free p : log_free (withPlaceholder getPreviewImageUrl p).
Proof.
  unfold withPlaceholder, previewUrl.
  destruct (image p) as [img|]; [destruct (isAbsoluteURL (url img))|]; log_free_tac.
Qed.

(** Whatever the service answers, an iteration issues exactly the
    requests of the specification. *)
Lemma withPlaceholder_calls p :
  snd (withPlaceholder getPreviewImageUrl p []) = preview_calls p.
Proof.
  unfold withPlaceholder, previewUrl, preview_calls, bind, await, ret.
  destruct (image p) as [img|]; [|reflexivity].
  destruct (isAbsoluteURL (url img)); [|reflexivity].
  now destruct (getPreviewImageUrl (url img)).
Qed.

(** The exact run of [getStaticProps] for any answers of the service:
    the first failing iteration's error or all records, and the requests
    of the iterations up to the first failure. *)
Lemma getStaticProps_run ps :
  behaves (getStaticProps getPreviewImageUrl ps)
    (props_of (all_settled (map (fun p => fst (withPlaceholder getPreviewImageUrl p [])) ps)))
    (calls_until_failure (map (fun p => withPlaceholder getPreviewImageUrl p []) ps)).
Proof.
  unfold getStaticProps. pose proof (for_of_push_run (withPlaceholder getPreviewImageUrl) ps []) as Hrun.
  destruct (all_settled _) as [e|xs] eqn:E; simpl in Hrun |- *.
  - apply behaves_bind_fail, Hrun. intros; apply withPlaceholder_log_free.
  - rewrite <- (app_nil_r (calls_until_failure _)).
    eapply behaves_bind_ok; [apply Hrun; intros; apply withPlaceholder_log_free|].
    apply behaves_ret.
Qed.

(** The requests of all iterations, whatever the answers. *)
Lemma iterations_calls ps :
  flat_map snd (map (fun p => withPlaceholder getPreviewImageUrl p []) ps)
  = flat_map preview_calls ps.
Proof.
  induction ps as [|p ps IH]; simpl; [reflexivity|]. now rewrite withPlaceholder_calls, IH.
Qed.

(** At most one request per project. *)
Lemma preview_calls_length ps : (List.length (flat_map preview_calls ps) <= List.length ps)%nat.
Proof.
  induction ps as [|p ps IH]; simpl; [lia|]. rewrite length_app.
  enough (List.length (preview_calls p) <= 1)%nat by lia.
  unfold preview_calls. destruct (image p) as [img|]; [destruct (isAbsoluteURL (url img))|];
    simpl; lia.
Qed.

(** An answered iteration's record, from the run on the empty log. *)
Lemma withPlaceholder_ok p :
  service_answers getPreviewImageUrl p ->
  fst (withPlaceholder getPreviewImageUrl p [])
  = inr {| project := p; placeholderImage := resolved getPreviewImageUrl p |}.
Proof. intros Hs. now rewrite (step_behaves p Hs []). Qed.

(** Every record of a successful loop is its project's, in order. *)
Lemma settled_projects ps xs :
  all_settled (map (fun p => fst (withPlaceholder getPreviewImageUrl p [])) ps) = inr xs ->
  map project xs = ps.
Proof.
  intros Hs. apply all_settled_inr in Hs. revert xs Hs.
  induction ps as [|p ps IH]; intros [|x xs] Hs; simpl in Hs; try discriminate; [reflexivity|].
  injection Hs as Hx Hxs. simpl. rewrite (IH xs Hxs). f_equal.
  revert Hx. unfold withPlaceholder, bind, ret.
  destruct (previewUrl getPreviewImageUrl p []) as [[e|u] log]; [discriminate|].
  now intros [= <-].
Qed.

(** C2: refinement.  When the service answers every request, the build
    succeeds with every project, in content order, paired with the
    placeholder of the specification ([null] without an image, the URL
    itself when it is not absolute, the service's answer otherwise), and
    the service is asked exactly once per project whose image URL is
    absolute, in content order, without deduplication. *)
Theorem getStaticProps_refines ps :
  (forall p, In p ps -> service_answers getPreviewImageUrl p) ->
  behaves (getStaticProps getPreviewImageUrl ps)
    (inr {| allProjectsWithPlaceholderImages :=
              map (fun p => {| project := p;
                               placeholderImage := resolved getPreviewImageUrl p |}) ps |})
    (flat_map preview_calls ps).
Proof.
  intros Hs. unfold getStaticProps. rewrite <- (app_nil_r (flat_map _ ps)).
  eapply behaves_bind_ok; [|apply behaves_ret].
  apply (for_of_push_ok _ _ preview_calls ps []).
  intros p Hp. now apply step_behaves, Hs.
Qed.

(** C8: a rejected preview request aborts the page's build: the error is
    the rejection, and no project after the failing one is visited. *)
Theorem getStaticProps_stops_at_rejection pre p post img :
  (forall q, In q pre -> service_answers getPreviewImageUrl q) ->
  image p = Some img -> isAbsoluteURL (url img) = true ->
  getPreviewImageUrl (url img) = None ->
  behaves (getStaticProps getPreviewImageUrl (pre ++ p :: post))
    (inl (ServiceUnreachable "preview-image"))
    (flat_map preview_calls pre ++ [PreviewImageCall (url img)]).
Proof.
  intros Hpre Himg Habs Hsvc. unfold getStaticProps.
  apply behaves_bind_fail.
  apply (for_of_push_fail _ (fun q => {| project := q;
             placeholderImage := resolved getPreviewImageUrl q |}) preview_calls);
    [intros q Hq; now apply step_behaves, Hpre|].
  apply behaves_bind_fail. unfold previewUrl. rewrite Himg, Habs.
  apply behaves_bind_fail. rewrite Hsvc. apply behaves_await_fail.
Qed.

(** C17: termination.  Whatever the service answers, the build returns,
    with a result, having issued a prefix of the specification's requests
    (one per project whose image URL is absolute, in content order). *)
Theorem getStaticProps_terminates ps :
  exists r cs rest, behaves (getStaticProps getPreviewImageUrl ps) r cs /\
                    app cs rest = flat_map preview_calls ps.
Proof.
  destruct (calls_until_failure_prefix
              (map (fun p => withPlaceholder getPreviewImageUrl p []) ps)) as [rest Hp].
  do 3 eexists. split; [apply getStaticProps_run|].
  now rewrite <- iterations_calls, Hp.
Qed.

(** C18: bounds.  A build, successful or not, issues at most one request
    to the preview service per project. *)
Theorem getStaticProps_calls_bound ps r cs :
  behaves (getStaticProps getPreviewImageUrl ps) r cs -> (List.length cs <= List.length ps)%nat.
Proof.
  intros Hb. destruct (behaves_unique _ _ _ _ _ Hb (getStaticProps_run ps)) as [_ ->].
  destruct (calls_until_failure_prefix
              (map (fun p => withPlaceholder getPreviewImageUrl p []) ps)) as [rest Hp].
  rewrite iterations_calls in Hp.
  pose proof (preview_calls_length ps) as Hl. rewrite Hp, length_app in Hl. lia.
Qed.
(** C24: liveness.  Whatever the service answers for the later projects,
    a project with an absolute image URL has its preview requested as soon
    as every earlier request was answered: the loop never skips it. *)
Theorem getStaticProps_requests_project pre p post img :
  (forall q, In q pre -> service_answers getPreviewImageUrl q) ->
  image p = Some img -> isAbsoluteURL (url img) = true ->
  exists r cs, behaves (getStaticProps getPreviewImageUrl (pre ++ p :: post)) r cs /\
               In (PreviewImageCall (url img)) cs.
Proof.
  intros Hpre Himg Habs. do 2 eexists. split; [apply getStaticProps_run|].
  rewrite map_app, calls_until_failure_app_ok.
  - destruct (calls_until_failure_head (withPlaceholder getPreviewImageUrl p [])
                (map (fun q => withPlaceholder getPreviewImageUrl q []) post)) as [rest Hh].
    simpl map. rewrite Hh, withPlaceholder_calls. unfold preview_calls. rewrite Himg, Habs.
    apply in_or_app. right. now left.
  - intros r Hr. apply in_map_iff in Hr as [q [<- Hq]].
    eexists. exact (withPlaceholder_ok q (Hpre q Hq)).
Qed.
End BuildFacts.

Section PageFacts.
Context `{Helpers}.

(** C1: spec §8, first property.  In the array the page renders, a project
    whose level (missing counts as 0) is strictly higher than another's
    sits at a smaller index. *)
Theorem ProjectsPage_level_order pp i j a b :
  nth_error (displayed pp) i = Some a -> nth_error (displayed pp) j = Some b ->
  (or_zero (level (project b)) < or_zero (level (project a)))%Z -> (i < j)%nat.
Proof.
  intros Hi Hj Hlt.
  apply (JsArray.sorted_nth_before (JsArray.le level_cmp) (JsArray.le_refl level_cmp)
           _ i j a b (JsArray.sort_sorted level_cmp _) Hi Hj).
  unfold JsArray.le, level_cmp. lia.
Qed.

(** C10: refinement.  Any engine meeting the ECMAScript contract of
    [Array.prototype.sort] (stable, sorted permutation for a consistent
    comparator), given the page's comparator, produces exactly the array
    the page renders: the order does not depend on the JS engine. *)
Theorem ProjectsPage_engine_independent impl `{!JsArray.StableSortContract impl} pp :
  impl _ level_cmp (allProjectsWithPlaceholderImages pp) = displayed pp.
Proof. exact (JsArray.contract_agrees impl level_cmp _). Qed.

(** C5: stability.  Projects of equal level keep the content layer's
    order. *)
Theorem ProjectsPage_equal_levels_keep_order pp v :
  filter (fun x => (or_zero (level (project x)) =? v)%Z) (displayed pp)
  = filter (fun x => (or_zero (level (project x)) =? v)%Z)
           (allProjectsWithPlaceholderImages pp).
Proof.
  set (probe := {| project := {| _id := ""; slug := ""; name := "";
                     description := ""; link := ""; githubLink := "";
                     image := None; level := Some v; video := None;
                     badges := [] |};
                   placeholderImage := None |}).
  assert (Hf : forall l, filter (fun x => (or_zero (level (project x)) =? v)%Z) l
                     = filter (JsArray.eqv level_cmp probe) l).
  { intros l. apply filter_ext_in. intros x _. unfold JsArray.eqv, level_cmp. simpl.
    destruct (Z.eqb_spec (or_zero (level (project x))) v);
      destruct (Z.eqb_spec (or_zero (level (project x)) - v) 0); lia. }
  rewrite !Hf. exact (JsArray.sort_stable level_cmp _ probe).
Qed.

Lemma render_cards_missing_image ps :
  (exists p, In p ps /\ image (project p) = None) ->
  render_cards ps = inl (TypeError "image.url").
Proof.
  induction ps as [|p ps IH]; intros [q [Hq Hnone]]; [destruct Hq|]. simpl.
  destruct (ProjectCard.render (card_attrs p)) as [e|v] eqn:Hr.
  - now apply render_error in Hr as [_ ->].
  - destruct Hq as [<-|Hq].
    + unfold ProjectCard.render in Hr. simpl in Hr. now rewrite Hnone in Hr.
    + rewrite IH by eauto. reflexivity.
Qed.

Lemma render_cards_ok ps :
  (forall p, In p ps -> image (project p) <> None) ->
  exists cards, render_cards ps = inr cards /\
                map fst cards = map (fun p => _id (project p)) ps.
Proof.
  induction ps as [|p ps IH]; intros Himg; [now exists []|]. simpl.
  destruct (image (project p)) as [img|] eqn:Hp;
    [|now destruct (Himg p (or_introl eq_refl))].
  destruct (render_ok (card_attrs p) img Hp) as [v [-> _]].
  destruct IH as [cards [-> Hk]]; [intros q Hq; apply Himg; now right|].
  exists ((_id (project p), v) :: cards). simpl. now rewrite Hk.
Qed.

(** Every card is paired with its project's [_id], the [key] of the card. *)
Lemma render_cards_keys ps cards :
  render_cards ps = inr cards -> map fst cards = map (fun p => _id (project p)) ps.
Proof.
  revert cards. induction ps as [|p ps IH]; intros cards; simpl; [now intros [= <-]|].
  destruct (ProjectCard.render (card_attrs p)); [discriminate|].
  destruct (render_cards ps) as [|vs]; [discriminate|].
  intros [= <-]. simpl. now rewrite (IH vs eq_refl).
Qed.

(** C7: the card dereferences [image.url] unguarded, although
    [getStaticProps] explicitly handles a project without an image: one
    such project makes the whole page throw. *)
Theorem ProjectsPage_throws_without_image pp p :
  In p (allProjectsWithPlaceholderImages pp) -> image (project p) = None ->
  snd (ProjectsPage pp) = inl (TypeError "image.url").
Proof.
  intros Hin Hnone. simpl. rewrite render_cards_missing_image; [reflexivity|].
  exists p. split; [|exact Hnone].
  eapply Permutation_in; [symmetry; apply JsArray.sort_perm|exact Hin].
Qed.

(** C15: when every project has an image the page renders one card per
    project, keyed by [_id], in the sorted order. *)
Theorem ProjectsPage_renders_all pp :
  (forall p, In p (allProjectsWithPlaceholderImages pp) -> image (project p) <> None) ->
  exists view, snd (ProjectsPage pp) = inr view /\
                map fst (cards view) = map (fun p => _id (project p)) (displayed pp).
Proof.
  intros Himg. destruct (render_cards_ok (displayed pp)) as [cs [Hr Hk]].
  { intros p Hp. apply Himg. eapply Permutation_in; [apply JsArray.sort_perm|exact Hp]. }
  eexists. split; [simpl; unfold displayed in Hr; simpl in Hr; now rewrite Hr|exact Hk].
Qed.
(** C21: React keys.  When the content layer's [_id]s are distinct, the
    [key]s of the rendered cards are pairwise distinct: sorting neither
    drops nor duplicates a project. *)
Theorem ProjectsPage_keys_unique pp view :
  NoDup (map (fun p => _id (project p)) (allProjectsWithPlaceholderImages pp)) ->
  snd (ProjectsPage pp) = inr view -> NoDup (map fst (cards view)).
Proof.
  intros Hn Hr. simpl in Hr.
  destruct (render_cards _) as [e|cs] eqn:Hc; [discriminate|injection Hr as <-]. simpl.
  rewrite (render_cards_keys _ _ Hc).
  eapply Permutation_NoDup; [|exact Hn].
  apply Permutation_map, Permutation_sym, JsArray.sort_perm.
Qed.
End PageFacts.
Section Pipeline.
Context `{Helpers} (getPreviewImageUrl : string -> option string).

Lemma render_cards_in ps cards k v :
  render_cards ps = inr cards -> In (k, v) cards ->
  exists q, In q ps /\ k = _id (project q) /\ ProjectCard.render (card_attrs q) = inr v.
Proof.
  revert cards. induction ps as [|p ps IH]; intros cards; simpl; [now intros [= <-]|].
  destruct (ProjectCard.render (card_attrs p)) as [|w] eqn:Hr; [discriminate|].
  destruct (render_cards ps) as [|ws] eqn:Hrs; [discriminate|].
  intros [= <-] [[= <- <-]|Hin]; [exists p; auto|].
  destruct (IH ws eq_refl Hin) as [q [Hq Hk]]. exists q. auto.
Qed.

(** What a rendered card shows of its project. *)
Lemma card_of_project q v :
  ProjectCard.render (card_attrs q) = inr v ->
  exists img, image (project q) = Some img /\ image_src v = url img /\
              heading v = name (project q) /\
              learn_more v = {| href := "/projects/" ++ slug (project q);
                                text := "Learn More"; with_icon := false |}.
Proof.
  unfold ProjectCard.render. simpl.
  destruct (image (project q)) as [img|]; [|discriminate].
  intros [= <-]. exists img. repeat split.
Qed.

(** A successful build's props hold the content's projects, in order. *)
Lemma getStaticProps_props ps pp cs :
  behaves (getStaticProps getPreviewImageUrl ps) (inr pp) cs ->
  map project (allProjectsWithPlaceholderImages pp) = ps.
Proof.
  intros Hb. destruct (behaves_unique _ _ _ _ _ Hb (getStaticProps_run getPreviewImageUrl ps))
    as [Hr _].
  destruct (all_settled _) as [e|xs] eqn:Hs; simpl in Hr; [discriminate|].
  injection Hr as ->. exact (settled_projects getPreviewImageUrl ps xs Hs).
Qed.

(** C25: composition of the data function and the page.  When every
    project of the content layer has an image, the page built from a
    successful build renders exactly one card per project, keyed by its
    [_id]; each card shows its project's image URL and name and links to
    [/projects/<slug>]. *)
Theorem projects_build_then_page ps pp cs :
  behaves (getStaticProps getPreviewImageUrl ps) (inr pp) cs ->
  (forall p, In p ps -> image p <> None) ->
  exists view, snd (ProjectsPage pp) = inr view /\
    Permutation (map fst (cards view)) (map _id ps) /\
    forall k v, In (k, v) (cards view) ->
      exists p img, In p ps /\ _id p = k /\ image p = Some img /\
        image_src v = url img /\ heading v = name p /\
        learn_more v = {| href := "/projects/" ++ slug p;
                          text := "Learn More"; with_icon := false |}.
Proof.
  intros Hb Himg. pose proof (getStaticProps_props ps pp cs Hb) as Hps.
  assert (Hin : forall q, In q (displayed pp) -> In (project q) ps).
  { intros q Hq. rewrite <- Hps. apply in_map.
    eapply Permutation_in; [apply JsArray.sort_perm|exact Hq]. }
  destruct (render_cards_ok (displayed pp)) as [cs' [Hr Hk]];
    [intros q Hq; exact (Himg _ (Hin q Hq))|].
  exists {| seo_title := "Projects | Harry Schiller";
            seo_description := "Projects worked upon by Harry Schiller";
            page_heading := "Projects"; cards := cs';
            more_href := "https://github.com/waitingwittykitty?tab=repositories";
            more_text := "View more on GitHub" |}.
  split; [|split].
  - unfold displayed in Hr. simpl in Hr |- *. now rewrite Hr.
  - simpl. rewrite Hk, <- Hps, map_map. apply Permutation_map, JsArray.sort_perm.
  - simpl. intros k v Hkv. destruct (render_cards_in _ _ _ _ Hr Hkv) as [q [Hq [-> Hv]]].
    destruct (card_of_project q v Hv) as [img Hc].
    exists (project q), img. split; [exact (Hin q Hq)|]. split; [reflexivity|exact Hc].
Qed.
End Pipeline.
End ProjectsFacts.
