(* ===== verification/ProjectsParallel.v ===== *)
(** * Spec §9: the preview resolution run in parallel

    The spec allows the sequential [for ... of] loop of
    [src/pages/projects/index.tsx] (lines 58-77) to be replaced by one
    async task per project joined with [Promise.all], and calls that a safe
    behaviour-preserving change.  [ProjectsParallel.getStaticProps_parallel]
    is that variant, built from the same iteration [Projects.withPlaceholder];
    it is a reference, not code of the repository.

    The fact compares it with the code: when the service answers every
    request, the variant and the loop are the same program, with the same
    result and the same requests in the same order from every log.  The
    variant's join is modelled as [Prelude.promise_all], which settles in
    array order; what happens on a rejection is not compared. *)

From Stdlib Require Import List String Lia.
From S2P Require Import Prelude Content ProjectCard Projects.
Import ListNotations.
Open Scope string_scope.

Module ProjectsParallel.
Import Content ProjectCard Projects.

Section Parallel.
Context `{Helpers} (getPreviewImageUrl : string -> option string).

(** [Promise.all(allProjects.map(async project => ({...project,
    placeholderImage: await ...})))]. *)
Definition getStaticProps_parallel (allProjects : list Project) : Build ProjectsPageProps :=
  do xs <- promise_all (map (withPlaceholder getPreviewImageUrl) allProjects) ;
  ret {| allProjectsWithPlaceholderImages := xs |}.
End Parallel.

End ProjectsParallel.

Module ProjectsParallelFacts.
Import Content ProjectCard Projects ProjectsFacts ProjectsParallel.

Section ParallelFacts.
Context `{Helpers} (getPreviewImageUrl : string -> option string).

Let runs ps := map (fun p => withPlaceholder getPreviewImageUrl p []) ps.

Lemma getStaticProps_parallel_run ps :
  behaves (getStaticProps_parallel getPreviewImageUrl ps)
    (props_of (all_settled (map fst (runs ps)))) (flat_map snd (runs ps)).
Proof.
  unfold getStaticProps_parallel, runs. pose proof (promise_all_behaves
    (map (withPlaceholder getPreviewImageUrl) ps)) as Hp.
  rewrite map_map in Hp. rewrite flat_map_concat_map, map_map in Hp |- *.
  rewrite map_map. rewrite <- flat_map_concat_map in Hp |- *.
  destruct (all_settled _) as [e|xs]; simpl.
  - now apply behaves_bind_fail.
  - rewrite <- (app_nil_r (flat_map _ ps)).
    eapply behaves_bind_ok; [exact Hp|apply behaves_ret].
Qed.

Lemma sequential_run ps :
  behaves (getStaticProps getPreviewImageUrl ps)
    (props_of (all_settled (map fst (runs ps)))) (calls_until_failure (runs ps)).
Proof. unfold runs. rewrite map_map. apply getStaticProps_run. Qed.

Lemma runs_ok ps :
  (forall p, In p ps -> service_answers getPreviewImageUrl p) ->
  forall r, In r (runs ps) -> exists b, fst r = inr b.
Proof.
  intros Hs r Hr. unfold runs in Hr. apply in_map_iff in Hr as [p [<- Hp]].
  eexists. exact (withPlaceholder_ok getPreviewImageUrl p (Hs p Hp)).
Qed.

(** C19: equivalence.  When the service answers every request, the
    parallel variant and the code are the same program: same result,
    same requests in the same order, from every log. *)
Theorem parallel_equivalent_when_answered ps :
  (forall p, In p ps -> service_answers getPreviewImageUrl p) ->
  forall log, getStaticProps_parallel getPreviewImageUrl ps log
              = getStaticProps getPreviewImageUrl ps log.
Proof.
  intros Hs log. rewrite (getStaticProps_parallel_run ps log), (sequential_run ps log).
  now rewrite (calls_until_failure_all_ok _ (runs_ok ps Hs)).
Qed.

End ParallelFacts.

End ProjectsParallelFacts.
