(* ===== verification/Achievements.v ===== *)
(** * [src/pages/achievements.tsx]

    [getStaticProps] (lines 36-50) maps every achievement of the content
    layer to a [CleanedAchievement] (optional fields [?? null]) and sorts by
    [(a, b) => b.date.localeCompare(a.date)].  A [null] date on the
    receiver [b] throws; a [null] argument is converted to the string
    ["null"].  [localeCompare] is modelled as code-unit lexicographic
    comparison, which is what the spec states and what any collation gives
    on ISO-8601 dates of one format.  Optional fields are [nullable]:
    absent in the content layer they read as [undefined], and [?? null]
    makes them [null], which Next.js's JSON check of the props
    ([next_serialize]) requires.  The page (lines 11-34) renders its SEO
    head, its heading and one card per cleaned achievement. *)

From Stdlib Require Import List String ZArith Lia Bool Sorted Permutation.
From S2P Require Import Prelude JsSort Content.
Import ListNotations.
Open Scope string_scope.

Module Achievements.

(** [CleanedAchievement] of [types/achievements] as built on lines 37-44. *)
Record CleanedAchievement := {
  id : string;
  title : string;
  content : string;
  date : nullable string;
  prizeValue : nullable string;
  proof : nullable string;
  image : nullable Content.CloudinaryImage
}.

Record AchievementPageProps := { achievements : list CleanedAchievement }.

(** Lines 37-44. *)
Definition clean (achievement : Content.Achievement) : CleanedAchievement :=
  {| id := Content.a_id achievement;
     title := Content.title achievement;
     content := Content.code (Content.body achievement);
     date := nullish (field (Content.date achievement));
     prizeValue := nullish (field (Content.prizeValue achievement));
     proof := nullish (field (Content.proof achievement));
     image := nullish (field (Content.a_image achievement)) |}.

(** [String.prototype.localeCompare]: negative, zero or positive. *)
Definition localeCompare (s that : string) : Z :=
  match String.compare s that with
  | Lt => (-1)%Z
  | Eq => 0%Z
  | Gt => 1%Z
  end.

(** [(a, b) => b.date.localeCompare(a.date)] (line 45). *)
Definition date_cmp (a b : CleanedAchievement) : build_error + Z :=
  match date b with
  | Val d => inr (localeCompare d (to_js_string (date a)))
  | _ => inl (TypeError "b.date.localeCompare")
  end.

(** The comparator's value whenever it returns. *)
Definition date_order (a b : CleanedAchievement) : Z :=
  localeCompare (to_js_string (date b)) (to_js_string (date a)).

(** Lines 36-50. *)
Definition getStaticProps (allAchievements : list Content.Achievement)
  : Build AchievementPageProps :=
  match JsArray.sortE date_cmp (map clean allAchievements) with
  | inl e => throw e
  | inr sorted => ret {| achievements := sorted |}
  end.

(** Next.js's check of the returned props: no field may be [undefined]
    (the runtime's, not code of the repository). *)
Definition serializable (a : CleanedAchievement) : bool :=
  json_defined (date a) && json_defined (prizeValue a) && json_defined (proof a)
  && json_defined (image a).

Definition next_serialize (pp : AchievementPageProps) : Build AchievementPageProps :=
  if forallb serializable (achievements pp) then ret pp
  else throw (SerializableError ".achievements").

(** The attributes of [<AchievementCard key=... />] (lines 20-29). *)
Record AchievementCardAttrs := {
  key : string;
  card_title : string;
  card_content : string;
  card_date : nullable string;
  card_proof : nullable string;
  card_prizeValue : nullable string;
  card_image : nullable Content.CloudinaryImage
}.

(** What the page renders: the [NextSeo] head, the heading and the cards. *)
Record AchievementsView := {
  seo_title : string;
  seo_description : string;
  page_heading : string;
  a_cards : list AchievementCardAttrs
}.

(** Lines 11-34. *)
Definition AchievementsPage (pp : AchievementPageProps) : AchievementsView :=
  {| seo_title := "Achievements | Harry Schiller";
     seo_description := "Harry Schiller's Achievements";
     page_heading := "Achievements";
     a_cards :=
       map (fun a => {| key := id a; card_title := title a; card_content := content a;
                        card_date := date a; card_proof := proof a;
                        card_prizeValue := prizeValue a; card_image := image a |})
           (achievements pp) |}.

End Achievements.

Module AchievementsFacts.
Import Achievements.

Lemma localeCompare_le s t : (localeCompare s t <= 0)%Z <-> String.compare s t <> Gt.
Proof.
  unfold localeCompare. destruct (String.compare s t); split; intros; try lia; congruence.
Qed.

#[export] Instance date_order_consistent : JsArray.Consistent date_order.
Proof.
  unfold date_order. constructor.
  - intros x. unfold localeCompare. now rewrite string_compare_refl.
  - intros x y. unfold localeCompare.
    rewrite (String.compare_antisym (to_js_string (date y))).
    destruct (String.compare (to_js_string (date x)) (to_js_string (date y))); simpl; lia.
  - intros x y. unfold localeCompare.
    rewrite (String.compare_antisym (to_js_string (date y))).
    destruct (String.compare (to_js_string (date x)) (to_js_string (date y))); simpl; lia.
  - intros x y z. rewrite !localeCompare_le. intros Hxy Hyz.
    exact (string_compare_le_trans _ _ _ Hyz Hxy).
Qed.

Lemma date_cmp_agrees x y c : date_cmp x y = inr c -> c = date_order x y.
Proof. unfold date_cmp, date_order. destruct (date y); simpl; congruence. Qed.

(** A successful build returns the pure sort, and makes no external call. *)
Lemma getStaticProps_success all pp cs :
  behaves (getStaticProps all) (inr pp) cs ->
  achievements pp = JsArray.sort date_order (map clean all) /\ cs = [].
Proof.
  unfold getStaticProps. intros H. specialize (H []). simpl in H.
  destruct (JsArray.sortE date_cmp (map clean all)) as [e|s] eqn:Hs;
    unfold throw, ret in H; [discriminate|].
  inversion H; subst. split; [|reflexivity].
  simpl. eapply JsArray.sortE_agrees; [exact date_cmp_agrees|exact Hs].
Qed.

(** C13: when every achievement has a date the build succeeds, makes no
    external call, and returns the cleaned achievements sorted newest
    first (the pure, consistent [date_order]). *)
Theorem getStaticProps_all_dated all :
  (forall a, In a all -> Content.date a <> None) ->
  behaves (getStaticProps all)
    (inr {| achievements := JsArray.sort date_order (map clean all) |}) [].
Proof.
  intros Hd. unfold getStaticProps.
  rewrite (JsArray.sortE_total date_cmp date_order); [apply behaves_ret|].
  intros x y _ Hy. apply in_map_iff in Hy as [a [<- Ha]].
  unfold date_cmp, date_order. simpl.
  destruct (Content.date a) eqn:E; [reflexivity|now destruct (Hd a Ha)].
Qed.

(** C3: spec §8, second property.  In the props of a successful build, an
    achievement whose date is lexicographically greater than another's
    sits at a smaller index. *)
Theorem achievements_newest_first all pp cs i j a b da db :
  behaves (getStaticProps all) (inr pp) cs ->
  nth_error (achievements pp) i = Some a -> nth_error (achievements pp) j = Some b ->
  date a = Val da -> date b = Val db -> String.compare db da = Lt ->
  (i < j)%nat.
Proof.
  intros Hb Hi Hj Ha Hb' Hlt. apply getStaticProps_success in Hb as [Hs _].
  rewrite Hs in Hi, Hj.
  apply (JsArray.sorted_nth_before (JsArray.le date_order) (JsArray.le_refl date_order)
           _ i j a b (JsArray.sort_sorted date_order _) Hi Hj).
  unfold JsArray.le, date_order. rewrite Ha, Hb'. simpl. intros Hle.
  apply localeCompare_le in Hle. apply Hle.
  rewrite String.compare_antisym, Hlt. reflexivity.
Qed.

(** C14: stability.  Achievements with the same date keep the content
    layer's order. *)
Theorem achievements_same_date_keep_order all pp cs d :
  behaves (getStaticProps all) (inr pp) cs ->
  filter (fun x => String.eqb (to_js_string (date x)) d) (achievements pp)
  = filter (fun x => String.eqb (to_js_string (date x)) d) (map clean all).
Proof.
  intros Hb. apply getStaticProps_success in Hb as [-> _].
  set (probe := {| id := ""; title := ""; content := ""; date := Val d;
                   prizeValue := Null; proof := Null; image := Null |}).
  assert (Hf : forall l, filter (fun x => String.eqb (to_js_string (date x)) d) l
                       = filter (JsArray.eqv date_order probe) l).
  { intros l. apply filter_ext_in. intros x _.
    unfold JsArray.eqv, date_order, localeCompare. simpl.
    destruct (String.eqb_spec (to_js_string (date x)) d) as [->|Hne].
    - now rewrite string_compare_refl.
    - destruct (String.compare (to_js_string (date x)) d) eqn:E; [|reflexivity..].
      apply String.compare_eq_iff in E. congruence. }
  rewrite !Hf. exact (JsArray.sort_stable date_order _ probe).
Qed.

(** C6: [?? null] followed by [b.date.localeCompare]: two or more
    achievements without a date make the page's build throw. *)
Theorem getStaticProps_undated_throws all :
  (2 <= List.length all)%nat -> (forall a, In a all -> Content.date a = None) ->
  behaves (getStaticProps all) (inl (TypeError "b.date.localeCompare")) [].
Proof.
  intros Hlen Hd. unfold getStaticProps.
  rewrite (JsArray.sortE_all_throw date_cmp (TypeError "b.date.localeCompare"));
    [apply behaves_throw| |now rewrite length_map].
  intros x y _ Hy. apply in_map_iff in Hy as [a [<- Ha]].
  unfold date_cmp. simpl. now rewrite (Hd a Ha).
Qed.
(** C22: React keys.  When the content layer's [_id]s are distinct, the
    [key]s of the achievement cards of a successful build are pairwise
    distinct. *)
Theorem achievements_keys_unique all pp cs :
  behaves (getStaticProps all) (inr pp) cs -> NoDup (map Content.a_id all) ->
  NoDup (map key (a_cards (AchievementsPage pp))).
Proof.
  intros Hb Hn. apply getStaticProps_success in Hb as [Hs _].
  unfold AchievementsPage. simpl. rewrite map_map, Hs.
  eapply Permutation_NoDup; [|rewrite <- (map_map clean id) in Hn; exact Hn].
  apply Permutation_map, Permutation_sym, JsArray.sort_perm.
Qed.
Lemma clean_serializable a : serializable (clean a) = true.
Proof.
  unfold serializable, clean. simpl.
  destruct (Content.date a), (Content.prizeValue a), (Content.proof a), (Content.a_image a);
    reflexivity.
Qed.

(** C23: type.  Lines 41-44 turn every missing optional field into
    [null]: Next.js accepts the props of every successful build, which an
    [undefined] field would make it refuse. *)
Theorem getStaticProps_props_serializable all pp cs :
  behaves (getStaticProps all) (inr pp) cs -> behaves (next_serialize pp) (inr pp) [].
Proof.
  intros Hb. apply getStaticProps_success in Hb as [Hs _].
  unfold next_serialize. rewrite Hs.
  replace (forallb serializable _) with true; [apply behaves_ret|].
  symmetry. apply forallb_forall. intros x Hx.
  apply (Permutation_in _ (JsArray.sort_perm date_order _)) in Hx.
  apply in_map_iff in Hx as [a [<- _]]. apply clean_serializable.
Qed.
End AchievementsFacts.
