(* ===== verification/Skills.v ===== *)
(** * [src/pages/skills/[slug].tsx] and the route it generates

    [getStaticPaths] (lines 58-81) asks the GraphQL CMS for every skill's
    slug and returns one path per slug with [fallback: false];
    [getStaticProps] (lines 33-56) asks the CMS for the skill of one slug
    ([data.skill], [null] when there is none); the page (lines 12-31) logs
    the skill and renders it, reading [skill.iconName] unguarded.

    [Skills.build_route] is Next.js's static generation of the route: the
    paths, then one page per path, collected in a [gmap] from slug to page;
    every listed path is generated even when another fails, and the build
    fails when one did.  [Skills.serve] answers a request for
    [/skills/<slug>] from that table; for a slug that was not generated it
    reads the route's [fallback]: [false] gives 404, [true] generates the
    page on demand.
    The CMS is an oracle: a snapshot of its skills, [None] when it is
    unreachable; the two queries may see different snapshots. *)

From Stdlib Require Import List String Bool.
From stdpp Require Import base gmap strings.
From S2P Require Import Prelude.
Import ListNotations.
Open Scope string_scope.

Module Skills.

(** [Skill] of [types/graphcms]: the fields the query selects. *)
Record Skill := {
  iconName : string;
  id : string;
  link : string;
  name : string;
  description : string
}.

(** A skill record of the CMS, with its slug. *)
Record CmsSkill := { cms_slug : string; cms_skill : Skill }.

(** What the CMS holds when a query reaches it. *)
Definition Cms := option (list CmsSkill).

(** [skill(where: { slug: $slug })]: the record with that slug, if any. *)
Definition find_skill (l : list CmsSkill) (slug : string) : option Skill :=
  match List.find (fun r => String.eqb (cms_slug r) slug) l with
  | Some r => Some (cms_skill r)
  | None => None
  end.

Record SkillsPageProps := { skill : option Skill }.

(** Lines 33-56. *)
Definition getStaticProps (cms : Cms) (slug : string) : Build SkillsPageProps :=
  do data <- await (CmsQuery "PageSkill" (Some slug))
                   (option_map (fun l => find_skill l slug) cms) "graphcms" ;
  ret {| skill := data |}.

Record Path := { params_slug : string }.
Record StaticPaths := { paths : list Path; fallback : bool }.

(** Lines 58-81. *)
Definition getStaticPaths (cms : Cms) : Build StaticPaths :=
  do slugs <- await (CmsQuery "PageSkillPaths" None)
                    (option_map (List.map cms_slug) cms) "graphcms" ;
  ret {| paths := List.map (fun s => {| params_slug := s |}) slugs;
         fallback := false |}.

(** The rendered page: the icon, the heading, the paragraph and the
    external link. *)
Record SkillView := {
  icon : string;
  heading : string;
  paragraph : string;
  anchor_href : string;
  anchor_text : string
}.

(** Lines 12-31: [console.log(skill)] first (the log is returned), then
    the elements, whose first read [skill.iconName] throws on [null]. *)
Definition SkillPage (pp : SkillsPageProps) : list (option Skill) * (build_error + SkillView) :=
  ([skill pp],
   match skill pp with
   | None => inl (TypeError "skill.iconName")
   | Some s => inr {| icon := iconName s; heading := name s;
                      paragraph := description s; anchor_href := link s;
                      anchor_text := link s |}
   end).

(** Generating one path: its [getStaticProps], then the page, whose throw
    fails that path. *)
Definition render_path (cms : Cms) (p : Path) : Build SkillView :=
  do props <- getStaticProps cms (params_slug p) ;
  match snd (SkillPage props) with
  | inl e => throw e
  | inr v => ret v
  end.

(** [next build] generates every listed path, whatever happens to the
    others, and fails when one of them failed.  It reports every failing
    path; the model's error is the first failing path's, in listed order
    (the order in which the paths are generated is not otherwise
    observable here). *)
Fixpoint build_pages (cms : Cms) (ps : list Path) (acc : gmap string SkillView)
  : Build (gmap string SkillView) :=
  match ps with
  | [] => ret acc
  | p :: rest =>
      do r <- attempt (render_path cms p) ;
      match r with
      | inr v => build_pages cms rest (<[params_slug p := v]> acc)
      | inl e => do _ <- attempt (build_pages cms rest acc) ; throw e
      end
  end.

(** The generated route: its pages, and the [fallback] its
    [getStaticPaths] returned. *)
Record Route := { route_pages : gmap string SkillView; route_fallback : bool }.

Definition build_route (cms_paths cms_props : Cms) : Build Route :=
  do sp <- getStaticPaths cms_paths ;
  do pages <- build_pages cms_props (paths sp) ∅ ;
  ret {| route_pages := pages; route_fallback := fallback sp |}.

(** A request for [/skills/<slug>] after the build: a generated page is
    served; another slug is 404 with [fallback: false], and with
    [fallback: true] is generated on demand by the same [getStaticProps]
    and page against the CMS of the moment. *)
Definition serve (cms : Cms) (r : Route) (slug : string) : build_error + SkillView :=
  match route_pages r !! slug with
  | Some v => inr v
  | None =>
      if route_fallback r
      then match fst (getStaticProps cms slug []) with
           | inl e => inl e
           | inr props => snd (SkillPage props)
           end
      else inl (NotFound ("/skills/" ++ slug))
  end.

End Skills.

Module SkillsFacts.
Import Skills.

(** The page the spec expects for a skill: its icon, name, description
    and link. *)
Definition page_of (s : Skill) : SkillView :=
  {| icon := iconName s; heading := name s; paragraph := description s;
     anchor_href := link s; anchor_text := link s |}.

Definition props_call (p : Path) : ext_call := CmsQuery "PageSkill" (Some (params_slug p)).

(** The paths [getStaticPaths] lists for a CMS's skills. *)
Definition mk_paths (l : list CmsSkill) : list Path :=
  List.map (fun s => {| params_slug := s |}) (List.map cms_slug l).

Lemma find_skill_in l r : In r l -> find_skill l (cms_slug r) <> None.
Proof.
  unfold find_skill. intros Hr.
  destruct (List.find (fun q => String.eqb (cms_slug q) (cms_slug r)) l) eqn:E;
    [discriminate|].
  pose proof (find_none _ _ E r Hr) as Hf. cbn beta in Hf. now rewrite String.eqb_refl in Hf.
Qed.

Lemma find_skill_absent l s :
  existsb (fun r => String.eqb (cms_slug r) s) l = false -> find_skill l s = None.
Proof.
  unfold find_skill. intros Hx.
  destruct (List.find (fun q => String.eqb (cms_slug q) s) l) eqn:E; [|reflexivity].
  apply find_some in E as [Hin Heq].
  assert (Ht : existsb (fun r => String.eqb (cms_slug r) s) l = true)
    by (apply existsb_exists; eauto).
  congruence.
Qed.

Lemma getStaticProps_behaves l slug :
  behaves (getStaticProps (Some l) slug) (inr {| skill := find_skill l slug |})
          [CmsQuery "PageSkill" (Some slug)].
Proof.
  unfold getStaticProps. rewrite <- (app_nil_r [_]).
  eapply behaves_bind_ok; [apply behaves_await_ok|apply behaves_ret].
Qed.

Lemma existsb_paths l s :
  existsb (fun p => String.eqb (params_slug p) s)
          (List.map (fun s => {| params_slug := s |}) (List.map cms_slug l))
  = existsb (fun r => String.eqb (cms_slug r) s) l.
Proof. induction l as [|r l IH]; simpl; [reflexivity|now rewrite IH]. Qed.

Lemma getStaticPaths_behaves l :
  behaves (getStaticPaths (Some l))
    (inr {| paths := List.map (fun s => {| params_slug := s |}) (List.map cms_slug l);
            fallback := false |})
    [CmsQuery "PageSkillPaths" None].
Proof.
  unfold getStaticPaths. rewrite <- (app_nil_r [_]).
  eapply behaves_bind_ok; [apply behaves_await_ok|apply behaves_ret].
Qed.

Lemma render_path_log_free cms p : log_free (render_path cms p).
Proof.
  unfold render_path, getStaticProps. log_free_tac.
  destruct (snd (SkillPage _)); log_free_tac.
Qed.

(** Generating a path queries its props once, whatever the CMS answers. *)
Lemma render_path_calls cms p : snd (render_path cms p []) = [props_call p].
Proof.
  unfold render_path, getStaticProps, bind, await, ret, throw.
  destruct cms as [l|]; [|reflexivity]. simpl.
  now destruct (find_skill l (params_slug p)).
Qed.

Lemma render_path_found l p sk :
  find_skill l (params_slug p) = Some sk ->
  behaves (render_path (Some l) p) (inr (page_of sk)) [props_call p].
Proof.
  intros Hsk. unfold render_path. rewrite <- (app_nil_r [props_call p]).
  eapply behaves_bind_ok; [apply getStaticProps_behaves|].
  unfold SkillPage. simpl. rewrite Hsk. apply behaves_ret.
Qed.

Lemma render_path_missing l p :
  find_skill l (params_slug p) = None ->
  behaves (render_path (Some l) p) (inl (TypeError "skill.iconName")) [props_call p].
Proof.
  intros Hsk. unfold render_path. rewrite <- (app_nil_r [props_call p]).
  eapply behaves_bind_ok; [apply getStaticProps_behaves|].
  unfold SkillPage. simpl. rewrite Hsk. apply behaves_throw.
Qed.

Lemma render_path_behaves cms p :
  behaves (render_path cms p) (fst (render_path cms p [])) [props_call p].
Proof. rewrite <- (render_path_calls cms p). apply render_path_log_free. Qed.

(** Every listed path is generated: its props are queried, in listed
    order, whatever the other paths gave. *)
Lemma build_pages_calls cms ps :
  forall acc, exists r, behaves (build_pages cms ps acc) r (List.map props_call ps).
Proof.
  induction ps as [|p ps IH]; intros acc; simpl.
  - eexists. apply behaves_ret.
  - pose proof (behaves_attempt _ _ _ (render_path_behaves cms p)) as Ha.
    destruct (fst (render_path cms p [])) as [e|v].
    + destruct (IH acc) as [r Hr]. exists (inl e).
      change (props_call p :: List.map props_call ps)
        with (app [props_call p] (List.map props_call ps)).
      eapply behaves_bind_ok; [exact Ha|]. cbv beta iota.
      rewrite <- (app_nil_r (List.map props_call ps)).
      eapply behaves_bind_ok; [exact (behaves_attempt _ _ _ Hr)|apply behaves_throw].
    + destruct (IH (<[params_slug p := v]> acc)) as [r Hr]. exists r.
      change (props_call p :: List.map props_call ps) with (app [props_call p] (List.map props_call ps)).
      eapply behaves_bind_ok; [exact Ha|exact Hr].
Qed.

Lemma build_pages_ok l ps acc :
  (forall p, In p ps -> find_skill l (params_slug p) <> None) ->
  exists res,
    behaves (build_pages (Some l) ps acc) (inr res) (List.map props_call ps) /\
    forall s, res !! s =
      if existsb (fun p => String.eqb (params_slug p) s) ps
      then option_map page_of (find_skill l s) else acc !! s.
Proof.
  revert acc. induction ps as [|p ps IH]; intros acc Hps.
  - exists acc. split; [apply behaves_ret|reflexivity].
  - destruct (find_skill l (params_slug p)) as [sk|] eqn:Hsk;
      [|now destruct (Hps p (or_introl eq_refl))].
    destruct (IH (<[params_slug p := page_of sk]> acc)) as [res [Hb Hres]];
      [intros q Hq; apply Hps; now right|].
    exists res. split.
    + simpl. change (props_call p :: List.map props_call ps)
        with (app [props_call p] (List.map props_call ps)).
      eapply behaves_bind_ok; [exact (behaves_attempt _ _ _ (render_path_found l p sk Hsk))|].
      exact Hb.
    + intros s. rewrite Hres. simpl.
      destruct (String.eqb_spec (params_slug p) s) as [<-|Hne].
      * rewrite Hsk. destruct existsb; [reflexivity|]. apply lookup_insert_eq.
      * destruct existsb; [reflexivity|]. now apply lookup_insert_ne.
Qed.

(** A page that fails fails the build, after every path was generated. *)
Lemma build_pages_fail l ps acc :
  (exists p, In p ps /\ find_skill l (params_slug p) = None) ->
  behaves (build_pages (Some l) ps acc) (inl (TypeError "skill.iconName"))
          (List.map props_call ps).
Proof.
  revert acc. induction ps as [|p ps IH]; intros acc [q [Hq Hnone]]; [destruct Hq|].
  simpl. change (props_call p :: List.map props_call ps)
    with (app [props_call p] (List.map props_call ps)).
  destruct (find_skill l (params_slug p)) as [sk|] eqn:Hsk.
  - destruct Hq as [->|Hq]; [congruence|].
    eapply behaves_bind_ok; [exact (behaves_attempt _ _ _ (render_path_found l p sk Hsk))|].
    apply IH. eauto.
  - eapply behaves_bind_ok; [exact (behaves_attempt _ _ _ (render_path_missing l p Hsk))|].
    destruct (build_pages_calls (Some l) ps acc) as [r Hr]. cbv beta iota.
    rewrite <- (app_nil_r (List.map props_call ps)).
    eapply behaves_bind_ok; [exact (behaves_attempt _ _ _ Hr)|apply behaves_throw].
Qed.

Lemma build_route_run l cms_props pages cs :
  behaves (build_pages cms_props (mk_paths l) ∅) (inr pages) cs ->
  behaves (build_route (Some l) cms_props)
    (inr {| route_pages := pages; route_fallback := false |})
    (CmsQuery "PageSkillPaths" None :: cs).
Proof.
  intros Hb. unfold build_route. change (CmsQuery "PageSkillPaths" None :: cs)
    with (app [CmsQuery "PageSkillPaths" None] cs).
  eapply behaves_bind_ok; [apply getStaticPaths_behaves|].
  rewrite <- (app_nil_r cs). eapply behaves_bind_ok; [exact Hb|apply behaves_ret].
Qed.

(** The route from a consistent CMS. *)
Lemma consistent_route l :
  exists route,
    behaves (build_route (Some l) (Some l)) (inr route)
      (CmsQuery "PageSkillPaths" None
         :: List.map (fun r => CmsQuery "PageSkill" (Some (cms_slug r))) l) /\
    (forall s, route_pages route !! s = option_map page_of (find_skill l s)) /\
    route_fallback route = false.
Proof.
  destruct (build_pages_ok l (mk_paths l) ∅) as [pages [Hb Hp]].
  { intros p Hp. unfold mk_paths in Hp. apply in_map_iff in Hp as [s [<- Hs]].
    apply in_map_iff in Hs as [r [<- Hr]]. now apply find_skill_in. }
  exists {| route_pages := pages; route_fallback := false |}. split; [|split; [|reflexivity]].
  - replace (List.map (fun r => CmsQuery "PageSkill" (Some (cms_slug r))) l)
      with (List.map props_call (mk_paths l))
      by (unfold mk_paths, props_call; now rewrite !List.map_map).
    now apply build_route_run.
  - intros s. simpl. rewrite Hp.
    destruct (existsb (fun p => String.eqb (params_slug p) s) (mk_paths l)) eqn:Hx;
      [reflexivity|].
    rewrite lookup_empty, find_skill_absent; [reflexivity|].
    unfold mk_paths in Hx. rewrite existsb_paths in Hx. exact Hx.
Qed.

Lemma route_calls l cms_props :
  exists r, behaves (build_route (Some l) cms_props) r
              (CmsQuery "PageSkillPaths" None
                 :: List.map (fun r => CmsQuery "PageSkill" (Some (cms_slug r))) l).
Proof.
  destruct (build_pages_calls cms_props (mk_paths l) ∅) as [r Hb].
  replace (List.map (fun r => CmsQuery "PageSkill" (Some (cms_slug r))) l)
    with (List.map props_call (mk_paths l))
    by (unfold mk_paths, props_call; now rewrite !List.map_map).
  destruct r as [e|pages]; [|eexists; now apply build_route_run].
  exists (inl e). unfold build_route. change (CmsQuery "PageSkillPaths" None :: ?x)
    with (app [CmsQuery "PageSkillPaths" None] x).
  eapply behaves_bind_ok; [apply getStaticPaths_behaves|]. now apply behaves_bind_fail.
Qed.

(** C9: with a reachable CMS that does not change during the build, the
    route is generated for exactly the CMS's slugs: the page at every
    slug is the page of the CMS's skill with that slug, no other slug has
    a page, and the route keeps [getStaticPaths]' [fallback: false].  The
    build asks for the paths once, then for each slug once, in the CMS's
    order. *)
Theorem build_route_consistent l :
  exists route,
    behaves (build_route (Some l) (Some l)) (inr route)
      (CmsQuery "PageSkillPaths" None
         :: List.map (fun r => CmsQuery "PageSkill" (Some (cms_slug r))) l) /\
    (forall s, route_pages route !! s = option_map page_of (find_skill l s)) /\
    route_fallback route = false.
Proof. apply consistent_route. Qed.

(** C4: spec §8, last property.  After a build from a consistent CMS, a
    request for a slug the CMS does not have is answered 404: the route
    carries [fallback: false] from [getStaticPaths], so no page is
    generated on demand. *)
Theorem serve_unknown_slug l route cs s :
  behaves (build_route (Some l) (Some l)) (inr route) cs ->
  find_skill l s = None ->
  serve (Some l) route s = inl (NotFound ("/skills/" ++ s)).
Proof.
  intros Hb Hs. destruct (consistent_route l) as [route' [Hb' [Hp Hf]]].
  destruct (behaves_unique _ _ _ _ _ Hb Hb') as [Heq _]. injection Heq as ->.
  unfold serve. now rewrite Hp, Hs, Hf.
Qed.

(** C12: interleaving.  If a skill is removed from the CMS between
    [getStaticPaths] and its [getStaticProps], the props hold
    [skill: null] and the page's [skill.iconName] fails the build. *)
Theorem build_route_stale_paths l1 l2 s :
  In s (List.map cms_slug l1) -> find_skill l2 s = None ->
  exists cs, behaves (build_route (Some l1) (Some l2)) (inl (TypeError "skill.iconName")) cs.
Proof.
  intros Hin Hnone.
  pose proof (build_pages_fail l2 (mk_paths l1) ∅) as Hb.
  exists (app [CmsQuery "PageSkillPaths" None] (List.map props_call (mk_paths l1))).
  unfold build_route. eapply behaves_bind_ok; [apply getStaticPaths_behaves|].
  apply behaves_bind_fail, Hb. exists {| params_slug := s |}. split; [|exact Hnone].
  unfold mk_paths. apply in_map_iff. eauto.
Qed.

(** C16: an unreachable CMS fails the route's build at the paths query. *)
Theorem build_route_cms_down cms_props :
  behaves (build_route None cms_props) (inl (ServiceUnreachable "graphcms"))
          [CmsQuery "PageSkillPaths" None].
Proof. unfold build_route. apply behaves_bind_fail, behaves_await_fail. Qed.

(** C20: termination and bounds.  Whatever the two CMS snapshots, the
    route's build returns, after at most one query for the paths and one
    per path the CMS listed. *)
Theorem build_route_terminates cms_paths cms_props :
  exists r cs, behaves (build_route cms_paths cms_props) r cs /\
    (List.length cs <= 1 + match cms_paths with Some l => List.length l | None => 0 end)%nat.
Proof.
  destruct cms_paths as [l|].
  - destruct (build_pages_calls cms_props (mk_paths l) ∅) as [r Hb].
    exists (match r with inl e => inl e
                    | inr pages => inr {| route_pages := pages; route_fallback := false |} end).
    exists (CmsQuery "PageSkillPaths" None :: List.map props_call (mk_paths l)). split.
    + destruct r as [e|pages]; [|now apply build_route_run].
      unfold build_route. change (CmsQuery "PageSkillPaths" None :: ?x)
        with (app [CmsQuery "PageSkillPaths" None] x).
      eapply behaves_bind_ok; [apply getStaticPaths_behaves|]. now apply behaves_bind_fail.
    + simpl. unfold mk_paths. rewrite !length_map. lia.
  - exists (inl (ServiceUnreachable "graphcms")), [CmsQuery "PageSkillPaths" None].
    split; [apply behaves_bind_fail, behaves_await_fail|simpl; lia].
Qed.

(** C26: liveness.  A failing page does not stop static generation:
    whatever the CMS answers to the props queries, every slug the paths
    query listed has its props queried. *)
Theorem build_route_queries_slug l cms_props pre s post :
  List.map cms_slug l = app pre (s :: post) ->
  exists r cs, behaves (build_route (Some l) cms_props) r cs /\
               In (CmsQuery "PageSkill" (Some s)) cs.
Proof.
  intros Hl. destruct (route_calls l cms_props) as [r Hb].
  exists r. eexists. split; [exact Hb|]. right.
  replace (List.map (fun r => CmsQuery "PageSkill" (Some (cms_slug r))) l)
    with (List.map (fun t => CmsQuery "PageSkill" (Some t)) (List.map cms_slug l))
    by now rewrite List.map_map.
  rewrite Hl. apply (in_map (fun t => CmsQuery "PageSkill" (Some t))), in_or_app.
  right. now left.
Qed.
End SkillsFacts.
