(* ===== verification/Witnesses.v ===== *)
(** * Concrete runs of the pages

    Small content-layer and CMS data, a helper implementation and preview
    service, and the theorems of the component files applied to them: each
    witness discharges the theorem's hypotheses by evaluation. *)

From Stdlib Require Import List String ZArith Lia Bool Sorted Permutation.
From S2P Require Import Prelude JsSort Content ProjectCard Projects ProjectsParallel Achievements Skills.
Import ListNotations.
Open Scope string_scope.

Module Demo.
Import Content ProjectCard Projects.

#[export] Instance demo_helpers : Helpers := {|
  cleanLink := fun s => s;
  getGitHubOwnerAndRepoFromLink := fun s => s;
  isAbsoluteURL := String.prefix "https://"
|}.

Definition demo_preview (u : string) : option string := Some (append "blur:" u).

Definition cloud_img : CloudinaryImage :=
  {| url := "https://res.cloudinary.com/demo/image/upload/site.png" |}.
Definition local_img : CloudinaryImage := {| url := "/images/b.png" |}.

Definition proj (i : string) (img : option CloudinaryImage) (lvl : option Z) : Project :=
  {| _id := i; slug := i; name := i; description := ""; link := "";
     githubLink := ""; image := img; level := lvl; video := None; badges := [] |}.

Definition pa := proj "a" (Some cloud_img) (Some 1%Z).
Definition pb := proj "b" (Some local_img) (Some 3%Z).
Definition pc := proj "c" None None.

Definition wp (p : Project) : ProjectWithPlaceholderImage :=
  {| project := p; placeholderImage := None |}.

Definition props_ab := {| allProjectsWithPlaceholderImages := [wp pa; wp pb] |}.
Definition props_abc := {| allProjectsWithPlaceholderImages := [wp pa; wp pb; wp pc] |}.

Definition ach (i : string) (d : option string) : Content.Achievement :=
  {| Content.a_id := i; Content.title := i; Content.body := {| Content.code := "" |};
     Content.date := d; Content.prizeValue := None; Content.proof := None;
     Content.a_image := None |}.

Definition demo_achievements : list Content.Achievement :=
  [ach "x" (Some "2021-03-01"); ach "y" (Some "2022-07-15"); ach "z" (Some "2021-03-01")].

Definition sorted_achievements : Achievements.AchievementPageProps :=
  {| Achievements.achievements :=
       JsArray.sort Achievements.date_order (map Achievements.clean demo_achievements) |}.

Definition sk (n : string) : Skills.Skill :=
  {| Skills.iconName := n; Skills.id := n; Skills.link := n; Skills.name := n;
     Skills.description := n |}.

Definition cms : list Skills.CmsSkill :=
  [{| Skills.cms_slug := "coq"; Skills.cms_skill := sk "Coq" |};
   {| Skills.cms_slug := "react"; Skills.cms_skill := sk "React" |}].

Definition cms_later : list Skills.CmsSkill :=
  [{| Skills.cms_slug := "coq"; Skills.cms_skill := sk "Coq" |}].
End Demo.

Module Witnesses.
Import Content ProjectCard Projects ProjectsFacts Demo.

Lemma ProjectsPage_level_order_witness :
  nth_error (displayed props_ab) 0 = Some (wp pb) /\
  nth_error (displayed props_ab) 1 = Some (wp pa) /\
  (or_zero (level (project (wp pa))) < or_zero (level (project (wp pb))))%Z /\
  (0 < 1)%nat.
Proof.
  split; [reflexivity|]. split; [reflexivity|]. split; [reflexivity|].
  apply (ProjectsPage_level_order props_ab 0 1 (wp pb) (wp pa));
    [reflexivity|reflexivity|reflexivity].
Defined.

Lemma getStaticProps_refines_witness :
  (forall p, In p [pa; pb; pc] -> service_answers demo_preview p) /\
  behaves (getStaticProps demo_preview [pa; pb; pc])
    (inr {| allProjectsWithPlaceholderImages :=
              map (fun p => {| project := p;
                               placeholderImage := resolved demo_preview p |}) [pa; pb; pc] |})
    (flat_map preview_calls [pa; pb; pc]).
Proof.
  assert (H : forall p, In p [pa; pb; pc] -> service_answers demo_preview p)
    by (intros p _ img _ _; unfold demo_preview; discriminate).
  split; [exact H|]. apply (getStaticProps_refines demo_preview [pa; pb; pc]). exact H.
Defined.

Lemma getStaticProps_stops_at_rejection_witness :
  (forall q, In q [pb] -> service_answers (fun _ => None) q) /\
  image pa = Some cloud_img /\ isAbsoluteURL (url cloud_img) = true /\
  (fun _ : string => @None string) (url cloud_img) = None /\
  behaves (getStaticProps (fun _ => None) ([pb] ++ pa :: [pc]))
    (inl (ServiceUnreachable "preview-image"))
    (flat_map preview_calls [pb] ++ [PreviewImageCall (url cloud_img)]).
Proof.
  assert (H : forall q, In q [pb] -> service_answers (fun _ => None) q).
  { intros q [<-|[]] img Himg Habs. injection Himg as <-. vm_compute in Habs. discriminate. }
  split; [exact H|]. split; [reflexivity|]. split; [reflexivity|]. split; [reflexivity|].
  apply (getStaticProps_stops_at_rejection (fun _ => None) [pb] pa [pc] cloud_img);
    [exact H|reflexivity|reflexivity|reflexivity].
Defined.

Lemma ProjectsPage_throws_without_image_witness :
  In (wp pc) (allProjectsWithPlaceholderImages props_abc) /\ image (project (wp pc)) = None /\
  snd (ProjectsPage props_abc) = inl (TypeError "image.url").
Proof.
  split; [right; right; left; reflexivity|]. split; [reflexivity|].
  apply (ProjectsPage_throws_without_image props_abc (wp pc));
    [right; right; left; reflexivity|reflexivity].
Defined.

Lemma ProjectsPage_renders_all_witness :
  (forall p, In p (allProjectsWithPlaceholderImages props_ab) -> image (project p) <> None) /\
  exists view, snd (ProjectsPage props_ab) = inr view /\
               map fst (cards view) = map (fun p => _id (project p)) (displayed props_ab).
Proof.
  assert (H : forall p, In p (allProjectsWithPlaceholderImages props_ab) ->
                        image (project p) <> None)
    by (intros p [<-|[<-|[]]]; discriminate).
  split; [exact H|]. apply (ProjectsPage_renders_all props_ab). exact H.
Defined.

Lemma ProjectsPage_engine_independent_witness :
  JsArray.StableSortContract (@JsArray.sort) /\
  JsArray.sort level_cmp (allProjectsWithPlaceholderImages props_abc) = displayed props_abc.
Proof.
  split; [exact JsArray.sort_contract|].
  exact (@ProjectsPage_engine_independent _ (@JsArray.sort) JsArray.sort_contract props_abc).
Defined.
Lemma getStaticProps_calls_bound_witness :
  behaves (getStaticProps demo_preview [pa; pb; pc])
    (inr {| allProjectsWithPlaceholderImages :=
              [{| project := pa; placeholderImage := Some (append "blur:" (url cloud_img)) |};
               {| project := pb; placeholderImage := Some (url local_img) |};
               {| project := pc; placeholderImage := None |}] |})
    [PreviewImageCall (url cloud_img)] /\
  (List.length [PreviewImageCall (url cloud_img)] <= List.length [pa; pb; pc])%nat.
Proof.
  assert (Hb : behaves (getStaticProps demo_preview [pa; pb; pc])
    (inr {| allProjectsWithPlaceholderImages :=
              [{| project := pa; placeholderImage := Some (append "blur:" (url cloud_img)) |};
               {| project := pb; placeholderImage := Some (url local_img) |};
               {| project := pc; placeholderImage := None |}] |})
    [PreviewImageCall (url cloud_img)]) by (intros log; reflexivity).
  split; [exact Hb|]. exact (getStaticProps_calls_bound demo_preview _ _ _ Hb).
Defined.

Lemma ProjectsPage_keys_unique_witness :
  NoDup (map (fun p => _id (project p)) (allProjectsWithPlaceholderImages props_ab)) /\
  exists view, snd (ProjectsPage props_ab) = inr view /\ NoDup (map fst (cards view)).
Proof.
  assert (Hn : NoDup (map (fun p => _id (project p)) (allProjectsWithPlaceholderImages props_ab)))
    by (simpl; repeat constructor; simpl; intros Hc; repeat destruct Hc as [Hc|Hc];
        try discriminate; contradiction).
  split; [exact Hn|]. eexists. split; [reflexivity|].
  exact (ProjectsPage_keys_unique props_ab _ Hn eq_refl).
Defined.
(** The service rejects everything: the first project's request is still
    made. *)
Lemma getStaticProps_requests_project_witness :
  (forall q, In q [pb] -> service_answers (fun _ => None) q) /\
  image pa = Some cloud_img /\ isAbsoluteURL (url cloud_img) = true /\
  exists r cs, behaves (getStaticProps (fun _ => None) ([pb] ++ pa :: [pc])) r cs /\
               In (PreviewImageCall (url cloud_img)) cs.
Proof.
  assert (H : forall q, In q [pb] -> service_answers (fun _ => None) q).
  { intros q [<-|[]] img Himg Habs. injection Himg as <-. vm_compute in Habs. discriminate. }
  split; [exact H|]. split; [reflexivity|]. split; [reflexivity|].
  exact (getStaticProps_requests_project (fun _ => None) [pb] pa [pc] cloud_img H
           eq_refl eq_refl).
Defined.

Lemma projects_build_then_page_witness :
  behaves (getStaticProps demo_preview [pa; pb])
    (inr {| allProjectsWithPlaceholderImages :=
              [{| project := pa; placeholderImage := Some (append "blur:" (url cloud_img)) |};
               {| project := pb; placeholderImage := Some (url local_img) |}] |})
    [PreviewImageCall (url cloud_img)] /\
  (forall p, In p [pa; pb] -> image p <> None) /\
  exists view,
    snd (ProjectsPage {| allProjectsWithPlaceholderImages :=
              [{| project := pa; placeholderImage := Some (append "blur:" (url cloud_img)) |};
               {| project := pb; placeholderImage := Some (url local_img) |}] |}) = inr view /\
    Permutation (map fst (cards view)) (map _id [pa; pb]) /\
    forall k v, In (k, v) (cards view) ->
      exists p img, In p [pa; pb] /\ _id p = k /\ image p = Some img /\
        image_src v = url img /\ heading v = name p /\
        learn_more v = {| href := "/projects/" ++ slug p;
                          text := "Learn More"; with_icon := false |}.
Proof.
  assert (Hb : behaves (getStaticProps demo_preview [pa; pb])
    (inr {| allProjectsWithPlaceholderImages :=
              [{| project := pa; placeholderImage := Some (append "blur:" (url cloud_img)) |};
               {| project := pb; placeholderImage := Some (url local_img) |}] |})
    [PreviewImageCall (url cloud_img)]) by (intros log; reflexivity).
  assert (Hi : forall p, In p [pa; pb] -> image p <> None)
    by (intros p [<-|[<-|[]]]; discriminate).
  split; [exact Hb|]. split; [exact Hi|].
  exact (projects_build_then_page demo_preview [pa; pb] _ _ Hb Hi).
Defined.
End Witnesses.

Module ParallelWitnesses.
Import Content ProjectCard Projects ProjectsFacts ProjectsParallel ProjectsParallelFacts Demo.

Lemma parallel_equivalent_when_answered_witness :
  (forall p, In p [pa; pb; pc] -> service_answers demo_preview p) /\
  forall log, ProjectsParallel.getStaticProps_parallel demo_preview [pa; pb; pc] log
              = getStaticProps demo_preview [pa; pb; pc] log.
Proof.
  assert (H : forall p, In p [pa; pb; pc] -> service_answers demo_preview p)
    by (intros p _ img _ _; unfold demo_preview; discriminate).
  split; [exact H|]. exact (parallel_equivalent_when_answered demo_preview [pa; pb; pc] H).
Defined.

(** The service rejects everything: the code asks once and stops, the
    parallel variant also asks for the later project. *)
End ParallelWitnesses.

Module AchievementsWitnesses.
Import Achievements AchievementsFacts Demo.

Lemma demo_build : behaves (getStaticProps demo_achievements) (inr sorted_achievements) [].
Proof. intros log. rewrite app_nil_r. reflexivity. Qed.

Lemma achievements_newest_first_witness :
  behaves (getStaticProps demo_achievements) (inr sorted_achievements) [] /\
  nth_error (achievements sorted_achievements) 0 = Some (clean (ach "y" (Some "2022-07-15"))) /\
  nth_error (achievements sorted_achievements) 1 = Some (clean (ach "x" (Some "2021-03-01"))) /\
  String.compare "2021-03-01" "2022-07-15" = Lt /\ (0 < 1)%nat.
Proof.
  split; [exact demo_build|]. split; [reflexivity|]. split; [reflexivity|].
  split; [reflexivity|].
  apply (achievements_newest_first demo_achievements sorted_achievements [] 0 1
           (clean (ach "y" (Some "2022-07-15"))) (clean (ach "x" (Some "2021-03-01")))
           "2022-07-15" "2021-03-01" demo_build);
    reflexivity.
Defined.

Lemma getStaticProps_undated_throws_witness :
  (2 <= List.length [ach "u" None; ach "v" None])%nat /\
  behaves (getStaticProps [ach "u" None; ach "v" None])
    (inl (TypeError "b.date.localeCompare")) [].
Proof.
  split; [simpl; lia|].
  apply getStaticProps_undated_throws; [simpl; lia|].
  intros a [<-|[<-|[]]]; reflexivity.
Defined.

Lemma getStaticProps_all_dated_witness :
  (forall a, In a demo_achievements -> Content.date a <> None) /\
  behaves (getStaticProps demo_achievements)
    (inr {| achievements := JsArray.sort date_order (map clean demo_achievements) |}) [].
Proof.
  assert (H : forall a, In a demo_achievements -> Content.date a <> None)
    by (intros a [<-|[<-|[<-|[]]]]; discriminate).
  split; [exact H|]. apply getStaticProps_all_dated. exact H.
Defined.

Lemma achievements_same_date_keep_order_witness :
  behaves (getStaticProps demo_achievements) (inr sorted_achievements) [] /\
  filter (fun x => String.eqb (to_js_string (date x)) "2021-03-01")
         (achievements sorted_achievements)
  = filter (fun x => String.eqb (to_js_string (date x)) "2021-03-01")
           (map clean demo_achievements).
Proof.
  split; [exact demo_build|].
  apply (achievements_same_date_keep_order demo_achievements sorted_achievements []
           "2021-03-01" demo_build).
Defined.

Lemma achievements_keys_unique_witness :
  behaves (getStaticProps demo_achievements) (inr sorted_achievements) [] /\
  NoDup (map Content.a_id demo_achievements) /\
  NoDup (map key (a_cards (AchievementsPage sorted_achievements))).
Proof.
  assert (Hn : NoDup (map Content.a_id demo_achievements))
    by (simpl; repeat constructor; simpl; intros Hc; repeat destruct Hc as [Hc|Hc];
        try discriminate; contradiction).
  split; [exact demo_build|]. split; [exact Hn|].
  exact (achievements_keys_unique demo_achievements sorted_achievements [] demo_build Hn).
Defined.
Lemma getStaticProps_props_serializable_witness :
  behaves (getStaticProps demo_achievements) (inr sorted_achievements) [] /\
  behaves (next_serialize sorted_achievements) (inr sorted_achievements) [].
Proof.
  split; [exact demo_build|].
  exact (getStaticProps_props_serializable demo_achievements sorted_achievements [] demo_build).
Defined.
End AchievementsWitnesses.

Module SkillsWitnesses.
Import Skills SkillsFacts Demo.

Lemma serve_unknown_slug_witness :
  find_skill cms "vue" = None /\
  exists route cs, behaves (build_route (Some cms) (Some cms)) (inr route) cs /\
                   serve (Some cms) route "vue" = inl (NotFound "/skills/vue").
Proof.
  split; [reflexivity|].
  destruct (consistent_route cms) as [route [Hb _]].
  eexists route, _. split; [exact Hb|].
  apply (serve_unknown_slug cms route _ "vue" Hb). reflexivity.
Defined.

Lemma build_route_stale_paths_witness :
  In "react" (List.map cms_slug cms) /\ find_skill cms_later "react" = None /\
  exists cs, behaves (build_route (Some cms) (Some cms_later))
                     (inl (TypeError "skill.iconName")) cs.
Proof.
  split; [right; left; reflexivity|]. split; [reflexivity|].
  apply (build_route_stale_paths cms cms_later "react"); [right; left; reflexivity|reflexivity].
Defined.
(** React was removed between the two queries: its props are still
    queried, and so is every later slug (the build then fails, C12). *)
Lemma build_route_queries_slug_witness :
  List.map cms_slug cms = app ["coq"] ("react" :: []) /\
  exists r cs, behaves (build_route (Some cms) (Some cms_later)) r cs /\
               In (CmsQuery "PageSkill" (Some "react")) cs.
Proof.
  split; [reflexivity|].
  exact (build_route_queries_slug cms (Some cms_later) ["coq"] "react" [] eq_refl).
Defined.
End SkillsWitnesses.
